(** * Cache.js: the asset prefetch-and-cache pipeline

    A shallow embedding of [Cache.js] (metadata store in IndexedDB, content
    cache in Cache Storage, [prefetchAssets], [clearAllCaches],
    [getCacheInfo]) and the properties its specification states.

    Modelling conventions.
    - An [async] function is a computation in the monad [M]: it threads the
      browser's durable state, may throw (a rejected promise) and emits the
      observable events of its run in order: every callback invocation and
      every call into the platform (network, Cache Storage, IndexedDB).
    - What the platform answers is not decided by the program.  It is given
      by a [Scenario] per loop iteration (what the lookup, the fetch, the
      cache write, the body stream, the metadata write and the clock do).
      Every awaited promise settles, and the four callbacks return normally,
      as the defaults [() => {}] do.
    - JS numbers that are counts, byte sizes or millisecond timestamps are
      [Z]; the first argument of [onProgress], which may be fractional, is an
      exact rational [Q]. *)

From Stdlib Require Import QArith Qround.
From Stdlib Require Import Ascii String DecimalString Strings.Byte.
From stdpp Require Import gmap strings list fin_maps sorting.

Open Scope string_scope.
Open Scope list_scope.
Open Scope Z_scope.

(** ** Data model *)

(** A thrown JS [Error]; only [error.message] is ever read. *)
Record JsError := { message : string }.

(** The object written by [saveAssetMeta] and kept in the object store
    [xr_asset_meta] (key path [url]). *)
Record AssetMeta := {
  url : string;
  size : Z;
  contentType : option string;
  etag : option string;
  lastModified : option string;
  timestamp : Z;
}.

(** The second argument of [saveAssetMeta]: the properties spread into the
    stored object.  A caller may also put a [timestamp] property in it. *)
Record MetaFields := {
  mf_size : Z;
  mf_contentType : option string;
  mf_etag : option string;
  mf_lastModified : option string;
  mf_timestamp : option Z;
}.

(** A response body stream: the chunks [reader.read()] delivers, then either
    [done] or a rejected read. *)
Record Body := {
  chunks : list (list byte);
  read_error : option JsError;
}.

Record Response := {
  status : Z;
  statusText : string;
  headers : gmap string string;
  body : option Body;
}.

(** [response.ok] *)
Definition ok (r : Response) : bool :=
  (200 <=? status r) && (status r <=? 299).

(** [response.headers.get(name)]: the value or [null]. *)
Definition headers_get (r : Response) (name : string) : option string :=
  headers r !! name.

(** An element of [assetList]. *)
Record Asset := { a_url : string; a_name : string }.

(** An element of the array [prefetchAssets] returns:
    [{url, name, cached, size}] or [{url, name, error}]. *)
Inductive ResultEntry :=
| ResSize (url name : string) (cached : bool) (size : Z)
| ResError (url name : string) (error : string).

(** The value [getCacheInfo] returns. *)
Record CacheInfo := {
  version : string;
  files : Z;
  totalSize : Z;
  latestUpdate : option Z;
  assets : list AssetMeta;
}.

(** The durable state: the object store and Cache Storage
    (cache name, then request URL). *)
Record World := {
  db : gmap string AssetMeta;
  caches : gmap string (gmap string Response);
}.

(** The observable events, in the order they happen. *)
Inductive Event :=
| FileStart (url name : string)
| Progress (completed : Q) (total : Z) (currentFile : string)
| FileComplete (url name : string) (size : Z)
| FileError (url name : string) (error : JsError)
| NetFetch (url : string)
| CachePut (cacheName url : string)
| CacheKeys
| CacheDelete (cacheName : string)
| StreamChunk (url : string) (len : Z)
| StreamDone (url : string)
| DbGet (url : string)
| DbPut (url : string)
| DbGetAll
| DbClear
| SwPostMessage.

(** ** The monad of async functions *)

Definition M (S A : Type) : Type := S → (JsError + A) * S * list Event.

Global Instance M_ret {S} : MRet (M S) := λ A a s, (inr a, s, []).

Global Instance M_bind {S} : MBind (M S) := λ A B f m s,
  match m s with
  | (inl e, s1, t1) => (inl e, s1, t1)
  | (inr a, s1, t1) => let '(o, s2, t2) := f a s1 in (o, s2, t1 ++ t2)
  end.

Definition throw {S A} (e : JsError) : M S A := λ s, (inl e, s, []).

Definition try_catch {S A} (m : M S A) (h : JsError → M S A) : M S A := λ s,
  match m s with
  | (inl e, s1, t1) => let '(o, s2, t2) := h e s1 in (o, s2, t1 ++ t2)
  | r => r
  end.

Definition emit {S} (e : Event) : M S () := λ s, (inr (), s, [e]).

Definition get_state {S} : M S S := λ s, (inr s, s, []).

Definition modify {S} (f : S → S) : M S () := λ s, (inr (), f s, []).

(** A platform call that rejects when the scenario says so. *)
Definition reject_if {S} (e : option JsError) : M S () :=
  match e with Some err => throw err | None => mret () end.

(** ** [parseInt(s, 10)] on ASCII strings; [None] is [NaN] *)

Definition is_space (c : ascii) : bool :=
  let n := nat_of_ascii c in
  (n =? 32)%nat || ((9 <=? n)%nat && (n <=? 13)%nat).

Fixpoint skip_space (s : string) : string :=
  match s with
  | String c s' => if is_space c then skip_space s' else s
  | EmptyString => s
  end.

Definition digit_of (c : ascii) : option Z :=
  let n := Z.of_nat (nat_of_ascii c) in
  if (48 <=? n) && (n <=? 57) then Some (n - 48) else None.

Fixpoint digits (acc : option Z) (s : string) : option Z :=
  match s with
  | String c s' =>
      match digit_of c with
      | Some d => digits (Some (10 * default 0 acc + d)) s'
      | None => acc
      end
  | EmptyString => acc
  end.

Definition parseInt10 (s : string) : option Z :=
  match skip_space s with
  | String "-" s' => Z.opp <$> digits None s'
  | String "+" s' => digits None s'
  | s' => digits None s'
  end.

(** [x || '0'] for a header value [x]: [null] and the empty string are falsy. *)
Definition or_zero_string (x : option string) : string :=
  match x with
  | Some (String c s) => String c s
  | _ => "0"
  end.

(** [contentLength > 0]; a comparison with [NaN] is false. *)
Definition positive_length (contentLength : option Z) : option Z :=
  match contentLength with
  | Some n => if 0 <? n then Some n else None
  | None => None
  end.

(** ** The platform: what each call of one loop iteration answers *)

Record Scenario := {
  sc_lookup : option JsError;       (* [getAssetMeta] rejects *)
  sc_fetch : JsError + Response;    (* [fetch] rejects, or its response *)
  sc_cache_open : option JsError;   (* [caches.open] rejects *)
  sc_cache_put : option JsError;    (* [cache.put] rejects *)
  sc_save : option JsError;         (* [saveAssetMeta] rejects *)
  sc_now : Z;                       (* [Date.now()] *)
}.

Definition set_db (f : gmap string AssetMeta → gmap string AssetMeta)
    (w : World) : World :=
  {| db := f (db w); caches := caches w |}.

Definition set_caches
    (f : gmap string (gmap string Response) → gmap string (gmap string Response))
    (w : World) : World :=
  {| db := db w; caches := f (caches w) |}.

(** ** The metadata store *)

(** [{ url, ...meta, timestamp: Date.now() }].  The properties of an object
    literal are written left to right, a later one replacing an earlier one
    of the same name: a [timestamp] that [meta] carries is replaced. *)
Definition stored_object (u : string) (meta : MetaFields) (now : Z) : AssetMeta :=
  {| url := u;
     size := mf_size meta;
     contentType := mf_contentType meta;
     etag := mf_etag meta;
     lastModified := mf_lastModified meta;
     timestamp := now |}.

(** [saveAssetMeta(url, meta)]; [store.put] on a store with key path [url]. *)
Definition saveAssetMeta (fails : option JsError) (now : Z)
    (u : string) (meta : MetaFields) : M World () :=
  emit (DbPut u);;
  reject_if fails;;
  let data := stored_object u meta now in
  modify (set_db (λ store, <[url data := data]> store)).

(** [getAssetMeta(url)]: the record, or [undefined]. *)
Definition getAssetMeta (fails : option JsError) (u : string)
    : M World (option AssetMeta) :=
  emit (DbGet u);;
  reject_if fails;;
  w ← get_state;
  mret (db w !! u).

(** [getAllAssetMeta()]: all records, in the store's key order. *)
Definition getAllAssetMeta (fails : option JsError) : M World (list AssetMeta) :=
  emit DbGetAll;;
  reject_if fails;;
  w ← get_state;
  mret (map snd (map_to_list (db w))).

(** [clearAssetMeta()] *)
Definition clearAssetMeta (fails : option JsError) : M World () :=
  emit DbClear;;
  reject_if fails;;
  modify (set_db (λ _, ∅)).

(** ** Cache Storage *)

(** [caches.open(name)] creates the cache when it does not exist. *)
Definition caches_open (fails : option JsError) (cacheName : string) : M World () :=
  reject_if fails;;
  modify (set_caches (λ cs,
    match cs !! cacheName with
    | Some _ => cs
    | None => <[cacheName := ∅]> cs
    end)).

(** [cache.put(url, response.clone())] on the opened cache. *)
Definition cache_put (fails : option JsError) (cacheName u : string)
    (response : Response) : M World () :=
  emit (CachePut cacheName u);;
  reject_if fails;;
  modify (set_caches (λ cs,
    <[cacheName := <[u := response]> (default ∅ (cs !! cacheName))]> cs)).

(** [caches.keys()] *)
Definition caches_keys (fails : option JsError) : M World (list string) :=
  emit CacheKeys;;
  reject_if fails;;
  w ← get_state;
  mret (map fst (map_to_list (caches w))).

(** [caches.delete(name)] *)
Definition caches_delete (fails : option JsError) (cacheName : string) : M World () :=
  emit (CacheDelete cacheName);;
  reject_if fails;;
  modify (set_caches (delete cacheName)).

(** [Promise.all]: every started operation runs to its end; the result
    rejects with the first rejection. *)
Fixpoint promise_all {S} (ms : list (M S ())) : M S () := λ s,
  match ms with
  | [] => (inr (), s, [])
  | m :: rest =>
      let '(o1, s1, t1) := m s in
      let '(o2, s2, t2) := promise_all rest s1 in
      (match o1 with inl e => inl e | inr _ => o2 end, s2, t1 ++ t2)
  end.

(** ** [prefetchAssets] *)

(** The durable state together with the locals [completed] and [results]. *)
Record Run := {
  world : World;
  completed : Z;
  results : list ResultEntry;
}.

Definition liftW {A} (m : M World A) : M Run A := λ r,
  let '(o, w, t) := m (world r) in
  (o, {| world := w; completed := completed r; results := results r |}, t).

(** [completed++] *)
Definition incr_completed : M Run () :=
  modify (λ r, {| world := world r; completed := completed r + 1;
                  results := results r |}).

(** [results.push(entry)] *)
Definition push (entry : ResultEntry) : M Run () :=
  modify (λ r, {| world := world r; completed := completed r;
                  results := results r ++ [entry] |}).

Definition get_completed : M Run Z := λ r, (inr (completed r), r, []).

Definition onFileStart (u name : string) : M Run () := emit (FileStart u name).
Definition onProgress (c : Q) (total : Z) (name : string) : M Run () :=
  emit (Progress c total name).
Definition onFileComplete (u name : string) (sz : Z) : M Run () :=
  emit (FileComplete u name sz).
Definition onFileError (u name : string) (e : JsError) : M Run () :=
  emit (FileError u name e).

(** [await fetch(url)] *)
Definition fetch (answer : JsError + Response) (u : string) : M Run Response :=
  emit (NetFetch u);;
  match answer with
  | inl e => throw e
  | inr response => mret response
  end.

(** [new Error(`HTTP ${response.status}: ${response.statusText}`)] *)
Definition http_error (response : Response) : JsError :=
  {| message := "HTTP " +:+ NilZero.string_of_int (Z.to_int (status response))
                +:+ ": " +:+ statusText response |}.

(** [response.body.getReader()]; [response.body] is [null] for a response
    without body, and the property access throws. *)
Definition getReader (response : Response) : M Run Body :=
  match body response with
  | Some b => mret b
  | None => throw {| message := "Cannot read properties of null (reading 'getReader')" |}
  end.

(** The [while (true)] loop over [reader.read()]; returns [receivedLength]. *)
Fixpoint read_body (u name : string) (total : Z) (contentLength : option Z)
    (receivedLength : Z) (pending : list (list byte)) (failure : option JsError)
    : M Run Z :=
  match pending with
  | [] =>
      match failure with
      | Some e => throw e
      | None => emit (StreamDone u);; mret receivedLength
      end
  | value :: rest =>
      emit (StreamChunk u (Z.of_nat (length value)));;
      let receivedLength := receivedLength + Z.of_nat (length value) in
      match positive_length contentLength with
      | Some len =>
          c ← get_completed;
          let fileProgress := (inject_Z receivedLength / inject_Z len)%Q in
          onProgress (inject_Z c + fileProgress)%Q total name
      | None => mret ()
      end;;
      read_body u name total contentLength receivedLength rest failure
  end.

(** The body of the [for] loop: the [try] block and its [catch]. *)
Definition process_asset (sc : Scenario) (total : Z) (asset : Asset) : M Run () :=
  let u := a_url asset in
  let name := a_name asset in
  try_catch
    (onFileStart u name;;
     meta ← liftW (getAssetMeta (sc_lookup sc) u);
     match meta with
     | Some meta =>
         incr_completed;;
         c ← get_completed;
         onProgress (inject_Z c) total name;;
         onFileComplete u name (size meta);;
         push (ResSize u name true (size meta))
     | None =>
         response ← fetch (sc_fetch sc) u;
         (if ok response then mret () else throw (http_error response));;
         let contentLength :=
           parseInt10 (or_zero_string (headers_get response "content-length")) in
         liftW (caches_open (sc_cache_open sc) "xr-cache-v1");;
         liftW (cache_put (sc_cache_put sc) "xr-cache-v1" u response);;
         reader ← getReader response;
         receivedLength ←
           read_body u name total contentLength 0 (chunks reader) (read_error reader);
         liftW (saveAssetMeta (sc_save sc) (sc_now sc) u
                  {| mf_size := receivedLength;
                     mf_contentType := headers_get response "content-type";
                     mf_etag := headers_get response "etag";
                     mf_lastModified := headers_get response "last-modified";
                     mf_timestamp := None |});;
         incr_completed;;
         c ← get_completed;
         onProgress (inject_Z c) total name;;
         onFileComplete u name receivedLength;;
         push (ResSize u name false receivedLength)
     end)
    (λ error,
       onFileError u name error;;
       incr_completed;;
       c ← get_completed;
       onProgress (inject_Z c) total name;;
       push (ResError u name (message error))).

(** [for (const asset of assetList)]; iteration [i] meets [env i]. *)
Fixpoint for_each_asset (env : nat → Scenario) (total : Z) (i : nat)
    (assetList : list Asset) : M Run () :=
  match assetList with
  | [] => mret ()
  | asset :: rest =>
      process_asset (env i) total asset;;
      for_each_asset env total (S i) rest
  end.

Definition prefetchAssets (env : nat → Scenario) (assetList : list Asset)
    : M World (list ResultEntry) := λ w,
  let total := Z.of_nat (length assetList) in
  let '(o, r, t) :=
    for_each_asset env total 0 assetList
      {| world := w; completed := 0; results := [] |} in
  (match o with inl e => inl e | inr _ => inr (results r) end, world r, t).

(** ** [clearAllCaches] *)

(** The step through the service worker.  The worker's handler (in [sw.js])
    deletes [xr-cache-*] caches and always posts a reply, [{ok: true}] or
    [{ok: false, error}]; the page awaits the reply and drops it. *)
Inductive SwStep :=
| SwAbsent                                       (* no controlling worker *)
| SwThrows (e : JsError)                         (* the access or [postMessage] throws *)
| SwReplies (reply_ok : bool) (deleted : list string).  (* caches it deleted, then its reply *)

Record ClearScenario := {
  cl_sw : SwStep;
  cl_keys : option JsError;               (* [caches.keys] rejects *)
  cl_delete : string → option JsError;    (* [caches.delete(name)] rejects *)
  cl_db : option JsError;                 (* [clearAssetMeta] rejects *)
}.

Definition sw_clear (step : SwStep) : M World () :=
  match step with
  | SwAbsent => mret ()
  | SwThrows e => throw e
  | SwReplies _ deleted =>
      emit SwPostMessage;;
      modify (set_caches (λ cs, foldr delete cs deleted))
  end.

(** The callback of [cacheNames.map]: a deletion for a name that starts with
    [xr-cache-], [undefined] otherwise. *)
Definition delete_if_ours (sc : ClearScenario) (cacheName : string)
    : option (M World ()) :=
  if String.prefix "xr-cache-" cacheName
  then Some (caches_delete (cl_delete sc cacheName) cacheName)
  else None.

Definition clearAllCaches (sc : ClearScenario) : M World bool :=
  try_catch
    (sw_clear (cl_sw sc);;
     cacheNames ← caches_keys (cl_keys sc);
     promise_all (omap (delete_if_ours sc) cacheNames);;
     clearAssetMeta (cl_db sc);;
     mret true)
    (λ error, mret false).

(** ** [getCacheInfo] *)

(** [x || 0] on a number. *)
Definition or_zero (x : Z) : Z := if x =? 0 then 0 else x.

(** [Math.max(...xs)] for a list with at least one element. *)
Definition math_max (x : Z) (xs : list Z) : Z := foldl Z.max x xs.

Definition getCacheInfo (fails : option JsError) : M World (option CacheInfo) :=
  try_catch
    (meta ← getAllAssetMeta fails;
     let totalSize := foldl (λ sum item, sum + or_zero (size item)) 0 meta in
     let latestUpdate :=
       match map timestamp meta with
       | t :: ts => Some (math_max t ts)
       | [] => None
       end in
     mret (Some {| version := "xr-cache-v1";
                   files := Z.of_nat (length meta);
                   totalSize := totalSize;
                   latestUpdate := latestUpdate;
                   assets := meta |}))
    (λ error, mret None).

(** ** Reading a run: outcome, final state, trace *)

Definition outcome_of {S A} (x : (JsError + A) * S * list Event) : JsError + A := x.1.1.
Definition state_of {S A} (x : (JsError + A) * S * list Event) : S := x.1.2.
Definition trace_of {S A} (x : (JsError + A) * S * list Event) : list Event := x.2.

Definition entry_url (e : ResultEntry) : string :=
  match e with ResSize u _ _ _ | ResError u _ _ => u end.

Definition entry_name (e : ResultEntry) : string :=
  match e with ResSize _ n _ _ | ResError _ n _ => n end.

(** The entries of a result list that carry an [error]. *)
Definition failed_of (rs : list ResultEntry) : list (string * string * string) :=
  omap (λ e, match e with ResError u n m => Some (u, n, m) | _ => None end) rs.

(** The items a trace started, and the errors it reported to [onFileError]. *)
Definition starts_of (t : list Event) : list (string * string) :=
  omap (λ e, match e with FileStart u n => Some (u, n) | _ => None end) t.

Definition errors_of (t : list Event) : list (string * string * string) :=
  omap (λ e, match e with FileError u n err => Some (u, n, message err) | _ => None end) t.

(** The network requests of a trace. *)
Definition fetches_of (t : list Event) : list string :=
  omap (λ e, match e with NetFetch u => Some u | _ => None end) t.

(** The first arguments of the successive [onProgress] calls. *)
Definition progress_values (t : list Event) : list Q :=
  omap (λ e, match e with Progress c _ _ => Some c | _ => None end) t.

(** The callbacks of a trace, without the platform calls between them. *)
Definition is_callback (e : Event) : bool :=
  match e with
  | FileStart _ _ | Progress _ _ _ | FileComplete _ _ _ | FileError _ _ _ => true
  | _ => false
  end.

Definition callbacks_of (t : list Event) : list Event := List.filter is_callback t.

(** The bytes a body stream delivers. *)
Definition bytes_of (cs : list (list byte)) : Z :=
  foldr (λ value n, Z.of_nat (length value) + n) 0 cs.

(** The declared length the read loop divides by: [contentLength] when
    [contentLength > 0]. *)
Definition declared_length (response : Response) : option Z :=
  positive_length (parseInt10 (or_zero_string (headers_get response "content-length"))).

(** A scenario whose response, when it declares a length, delivers no more
    bytes than it declares. *)
Definition within_declared (sc : Scenario) : Prop :=
  match sc_fetch sc with
  | inr response =>
      match declared_length response, body response with
      | Some len, Some b => bytes_of (chunks b) ≤ len
      | _, _ => True
      end
  | inl _ => True
  end.

(** The entry a cache hit would report for the same item. *)
Definition as_cached (e : ResultEntry) : ResultEntry :=
  match e with
  | ResSize u n _ s => ResSize u n true s
  | ResError u n m => ResError u n m
  end.

Definition is_downloaded (e : ResultEntry) : bool :=
  match e with ResSize _ _ false _ => true | _ => false end.

(** The events of the read loop, as a function of the stream. *)
Fixpoint read_trace (u name : string) (total : Z) (len : option Z) (c : Z)
    (received : Z) (pending : list (list byte)) (failure : option JsError)
    : list Event :=
  match pending with
  | [] => match failure with Some _ => [] | None => [StreamDone u] end
  | value :: rest =>
      let received := received + Z.of_nat (length value) in
      StreamChunk u (Z.of_nat (length value))
      :: match len with
         | Some l => [Progress (inject_Z c + inject_Z received / inject_Z l)%Q total name]
         | None => []
         end
      ++ read_trace u name total len c received rest failure
  end.

(** What an entry without [error] says about the store the iteration leaves:
    a record for the item exists and has the reported size. *)
Definition recorded_in (store : gmap string AssetMeta) (a : Asset)
    (e : ResultEntry) : Prop :=
  entry_url e = a_url a ∧ entry_name e = a_name a ∧
  match e with
  | ResSize _ _ _ s => ∃ rec, store !! a_url a = Some rec ∧ size rec = s
  | ResError _ _ _ => True
  end.

(** The entry a cache hit reports from the store. *)
Definition hit_from (store : gmap string AssetMeta) (a : Asset)
    (e : ResultEntry) : Prop :=
  ∃ rec, store !! a_url a = Some rec ∧
         e = ResSize (a_url a) (a_name a) true (size rec).

(** [lo <= v <= hi] for a progress value [v]. *)
Definition between (lo hi : Z) (v : Q) : Prop :=
  (inject_Z lo <= v)%Q ∧ (v <= inject_Z hi)%Q.

(** The error of a download that fails: the rejection of [fetch] (a network
    error), or the [Error] thrown for a response that is not [ok]. *)
Definition download_failure (sc : Scenario) : option JsError :=
  match sc_fetch sc with
  | inl e => Some e
  | inr response => if ok response then None else Some (http_error response)
  end.

(** Does some [onFileError] call come after an [onProgress] call? *)
Fixpoint error_follows_progress (seen_progress : bool) (t : list Event) : bool :=
  match t with
  | [] => false
  | Progress _ _ _ :: t' => error_follows_progress true t'
  | FileError _ _ _ :: t' => seen_progress || error_follows_progress seen_progress t'
  | _ :: t' => error_follows_progress seen_progress t'
  end.

(** The sum of the [size] fields of a list of records. *)
Definition sum_sizes (records : list AssetMeta) : Z :=
  foldr (λ rec acc, size rec + acc) 0 records.


(** What goes wrong after [cache.put] has completed: the response has no
    body to read, the stream fails while it is read, or the metadata write
    is rejected. *)
Definition fails_after_cache_put (sc : Scenario) (response : Response) : Prop :=
  match body response with
  | None => True
  | Some b => is_Some (read_error b) ∨ is_Some (sc_save sc)
  end.



(** ** Further readings of a run *)

(** The calls of [onFileComplete] in a trace. *)
Definition completes_of (t : list Event) : list (string * string * Z) :=
  omap (λ e, match e with FileComplete u n s => Some (u, n, s) | _ => None end) t.

(** The entries of a result list that carry a [size]. *)
Definition sized_of (rs : list ResultEntry) : list (string * string * Z) :=
  omap (λ e, match e with ResSize u n _ s => Some (u, n, s) | _ => None end) rs.

(** The sizes of the entries that were downloaded in this run
    ([cached: false]). *)
Definition downloaded_sizes (rs : list ResultEntry) : list Z :=
  omap (λ e, match e with ResSize _ _ false s => Some s | _ => None end) rs.

(** The response the cache [xr-cache-v1] holds for a URL. *)
Definition cached_response (w : World) (u : string) : option Response :=
  caches w !! "xr-cache-v1" ≫= (λ c, c !! u).

(** An event of the run of [assetList] that names an item names one of the
    list, and an [onProgress] call carries the length of the list. *)
Definition event_of_list (assetList : list Asset) (e : Event) : Prop :=
  match e with
  | FileStart u n | FileComplete u n _ | FileError u n _ =>
      (u, n) ∈ map (λ a, (a_url a, a_name a)) assetList
  | Progress _ total n =>
      total = Z.of_nat (length assetList) ∧ n ∈ map a_name assetList
  | NetFetch u | CachePut _ u | StreamChunk u _ | StreamDone u | DbGet u | DbPut u =>
      u ∈ map a_url assetList
  | CacheKeys | CacheDelete _ | DbGetAll | DbClear | SwPostMessage => False
  end.

(** The record a completed download writes. *)
Definition record_of (sc : Scenario) (u : string) (response : Response) (b : Body)
    : AssetMeta :=
  {| url := u;
     size := bytes_of (chunks b);
     contentType := headers_get response "content-type";
     etag := headers_get response "etag";
     lastModified := headers_get response "last-modified";
     timestamp := sc_now sc |}.

(** A scenario in which the download of an item completes: the lookup
    answers, the response is [ok] with a body that is read to its end, and
    both stores accept their write. *)
Definition completes_with (sc : Scenario) (response : Response) (b : Body) : Prop :=
  sc_lookup sc = None ∧ sc_fetch sc = inr response ∧ ok response = true ∧
  sc_cache_open sc = None ∧ sc_cache_put sc = None ∧
  body response = Some b ∧ read_error b = None ∧ sc_save sc = None.


(** Every record is stored under its own [url], as a store with key path
    [url] has it. *)
Definition keyed (store : gmap string AssetMeta) : Prop :=
  ∀ k rec, store !! k = Some rec → url rec = k.

(** ** [readAssetsJson] *)

(** [readAssetsJson(path)].  [answer] is what [fetch(path)] does and [json]
    what [response.json()] does.  The [catch] block logs and throws the
    error again. *)
Definition readAssetsJson {S J : Type} (answer : JsError + Response)
    (json : JsError + J) (path : string) : M S J :=
  try_catch
    (response ←
       (emit (NetFetch path);;
        match answer with
        | inl e => throw e
        | inr response => mret response
        end);
     (if ok response then mret ()
      else throw {| message := "Failed to load " +:+ path +:+ ": "
                               +:+ statusText response |});;
     match json with
     | inl e => throw e
     | inr config => mret config
     end)
    (λ error, throw error).

(** ** The download handler of [UI.js] *)

(** [assets.json]: [{ environmentUrl, lightplanUrl, additional: [{url, name}] }];
    [None] is a missing property. *)
Record AdditionalAsset := { ad_url : string; ad_name : option string }.

Record AssetsConfig := {
  environmentUrl : option string;
  lightplanUrl : option string;
  additional : option (list AdditionalAsset);
}.

(** A string property in a condition or before [||]: missing and empty are
    falsy. *)
Definition truthy (x : option string) : option string :=
  match x with
  | Some (String c s) => Some (String c s)
  | _ => None
  end.

(** The asset list [onDownloadAssets] builds from the configuration. *)
Definition build_asset_list (config : AssetsConfig) : list Asset :=
  match truthy (environmentUrl config) with
  | Some u => [{| a_url := u; a_name := "Environment Model" |}]
  | None => []
  end ++
  match truthy (lightplanUrl config) with
  | Some u => [{| a_url := u; a_name := "Light Plan" |}]
  | None => []
  end ++
  match additional config with
  | Some assets =>
      map (λ asset, {| a_url := ad_url asset;
                       a_name := default "Additional Asset" (truthy (ad_name asset)) |})
          assets
  | None => []
  end.

(** What [updateProgress(completed, total, currentFile)] shows: the width of
    the bar in percent, and the two numbers of the status line
    [Downloading ${Math.floor(completed)}/${total} files...]. *)
Record ProgressView := {
  bar_percent : Q;
  files_done : Z;
  files_total : Z;
}.

Definition updateProgress (completed : Q) (total : Z) : ProgressView :=
  let progress := if 0 <? total then (completed / inject_Z total)%Q else 0%Q in
  {| bar_percent := (progress * 100)%Q;
     files_done := Qfloor completed;
     files_total := total |}.

(** The views the [onProgress] callback of the handler shows during a run. *)
Definition progress_views (t : list Event) : list ProgressView :=
  omap (λ e, match e with
             | Progress c total _ => Some (updateProgress c total)
             | _ => None
             end) t.

(** ** [cycleQuality] *)

(** [modes.indexOf(x)] from index [i] on; [-1] when [x] is not in the list. *)
Fixpoint indexOf (x : string) (modes : list string) (i : Z) : Z :=
  match modes with
  | [] => -1
  | m :: rest => if String.eqb x m then i else indexOf x rest (i + 1)
  end.

(** The new [qualityMode] after a click; [%] is the remainder with the sign
    of the dividend. *)
Definition cycleQuality (qualityMode : string) : string :=
  let modes := ["high"; "medium"; "low"] in
  let currentIndex := indexOf qualityMode modes 0 in
  let nextIndex := Z.rem (currentIndex + 1) (Z.of_nat (length modes)) in
  nth (Z.to_nat nextIndex) modes "".


(** For a downloaded entry: the response is in the content cache and the
    metadata store has a record of the entry's size. *)
Definition in_both_stores (w : World) (a : Asset) (e : ResultEntry) : Prop :=
  match e with
  | ResSize _ _ false s =>
      is_Some (cached_response w (a_url a)) ∧
      ∃ rec, db w !! a_url a = Some rec ∧ size rec = s
  | _ => True
  end.


(** Cache Storage once [caches.open('xr-cache-v1')] has resolved. *)
Definition opened (cs : gmap string (gmap string Response))
    : gmap string (gmap string Response) :=
  match cs !! "xr-cache-v1" with
  | Some _ => cs
  | None => <["xr-cache-v1" := ∅]> cs
  end.


(** ** Concrete inputs *)

Definition empty_world : World := {| db := ∅; caches := ∅ |}.

Definition hall : Asset := {| a_url := "/models/hall.glb"; a_name := "Hall" |}.
Definition plan : Asset := {| a_url := "/models/plan.json"; a_name := "Light plan" |}.

Definition chunk250 : list byte := repeat "x"%byte 250.

(** Declares 1000 bytes and delivers them in four chunks of 250. *)
Definition response_1000 : Response :=
  {| status := 200; statusText := "OK";
     headers := {[ "content-length" := "1000" ]};
     body := Some {| chunks := [chunk250; chunk250; chunk250; chunk250];
                     read_error := None |} |}.

(** Declares 100 bytes (the encoded length) and delivers 250 decoded bytes. *)
Definition response_encoded : Response :=
  {| status := 200; statusText := "OK";
     headers := {[ "content-length" := "100" ]};
     body := Some {| chunks := [chunk250]; read_error := None |} |}.

Definition response_404 : Response :=
  {| status := 404; statusText := "Not Found"; headers := ∅; body := None |}.

(** The platform answers [response] and no storage operation fails. *)
Definition answers (response : Response) : Scenario :=
  {| sc_lookup := None; sc_fetch := inr response; sc_cache_open := None;
     sc_cache_put := None; sc_save := None; sc_now := 1700000000000 |}.

(** As [answers], but the metadata write is rejected. *)
Definition save_rejected (response : Response) : Scenario :=
  {| sc_lookup := None; sc_fetch := inr response; sc_cache_open := None;
     sc_cache_put := None;
     sc_save := Some {| message := "QuotaExceededError" |};
     sc_now := 1700000000000 |}.


(** A caller's [meta] that already carries a [timestamp]. *)
Definition stamped_meta : MetaFields :=
  {| mf_size := 1000; mf_contentType := Some "model/gltf-binary";
     mf_etag := None; mf_lastModified := None; mf_timestamp := Some 5 |}.

(** The stores after [hall] was downloaded: one record, one cached response. *)
Definition hall_cached : World :=
  Eval vm_compute in
    state_of (prefetchAssets (λ _, answers response_1000) [hall] empty_world).

(** The step through the worker throws. *)
Definition worker_throws : ClearScenario :=
  {| cl_sw := SwThrows {| message := "SecurityError" |};
     cl_keys := None; cl_delete := λ _, None; cl_db := None |}.

(** The worker replies [{ok: false, error}] and has deleted nothing. *)
Definition worker_reports_failure : ClearScenario :=
  {| cl_sw := SwReplies false [];
     cl_keys := None; cl_delete := λ _, None; cl_db := None |}.

(** Sent without a [content-length] header (chunked), in two chunks. *)
Definition response_chunked : Response :=
  {| status := 200; statusText := "OK";
     headers := {[ "content-type" := "application/json" ]};
     body := Some {| chunks := [chunk250; chunk250]; read_error := None |} |}.

Definition floor_texture : Asset :=
  {| a_url := "/textures/floor.ktx2"; a_name := "Floor" |}.

(** The second request is answered 404, the others with 1000 bytes. *)
Definition second_fails (i : nat) : Scenario :=
  if (i =? 1)%nat then answers response_404 else answers response_1000.


(** * Properties *)

(** ** Unfolding computations *)

Ltac run_m :=
  unfold getAssetMeta, saveAssetMeta, getAllAssetMeta, clearAssetMeta,
    caches_open, cache_put, caches_keys, caches_delete, onFileStart,
    onProgress, onFileComplete, onFileError, incr_completed, push, fetch,
    getReader, outcome_of, state_of, trace_of in *;
  unfold liftW, reject_if, get_completed, get_state, modify, emit, throw,
    try_catch, mbind, M_bind, mret, M_ret in *.

Lemma read_body_run u name total cl rl cs f r :
  read_body u name total cl rl cs f r =
  (match f with Some e => inl e | None => inr (rl + bytes_of cs) end, r,
   read_trace u name total (positive_length cl) (completed r) rl cs f).
Proof.
  revert rl. induction cs as [|v cs IH]; intros rl; simpl.
  - destruct f; simpl; [reflexivity|]. run_m. simpl. by rewrite Z.add_0_r.
  - unfold mbind, M_bind at 1 2. unfold emit at 1. simpl.
    destruct (positive_length cl) as [l|]; simpl; run_m; simpl;
      rewrite IH; destruct f; simpl; rewrite ?Z.add_assoc; reflexivity.
Qed.

(** One case split along the control flow of [process_asset]. *)
Ltac step_case :=
  match goal with
  | |- context [read_body ?u ?n ?t ?cl ?rl ?cs ?f ?r] =>
      rewrite (read_body_run u n t cl rl cs f r)
  | |- context [match sc_lookup ?sc with _ => _ end] => destruct (sc_lookup sc) eqn:?
  | |- context [match db ?w !! ?k with _ => _ end] => destruct (db w !! k) eqn:?
  | |- context [match sc_fetch ?sc with _ => _ end] => destruct (sc_fetch sc) eqn:?
  | |- context [if ok ?resp then _ else _] => destruct (ok resp) eqn:?
  | |- context [match sc_cache_open ?sc with _ => _ end] => destruct (sc_cache_open sc) eqn:?
  | |- context [match sc_cache_put ?sc with _ => _ end] => destruct (sc_cache_put sc) eqn:?
  | |- context [match body ?resp with _ => _ end] => destruct (body resp) eqn:?
  | |- context [match read_error ?b with _ => _ end] => destruct (read_error b) eqn:?
  | |- context [match sc_save ?sc with _ => _ end] => destruct (sc_save sc) eqn:?
  end; simpl.

Ltac iter_cases := unfold process_asset; run_m; simpl; repeat step_case.

(** ** The read loop emits only chunk, progress and end-of-stream events *)

Lemma starts_of_read_trace u name total len c rl cs f :
  starts_of (read_trace u name total len c rl cs f) = [].
Proof.
  revert rl. induction cs as [|v cs IH]; intros rl; simpl.
  - by destruct f.
  - destruct len; simpl; apply IH.
Qed.

Lemma errors_of_read_trace u name total len c rl cs f :
  errors_of (read_trace u name total len c rl cs f) = [].
Proof.
  revert rl. induction cs as [|v cs IH]; intros rl; simpl.
  - by destruct f.
  - destruct len; simpl; apply IH.
Qed.

Lemma fetches_of_read_trace u name total len c rl cs f :
  fetches_of (read_trace u name total len c rl cs f) = [].
Proof.
  revert rl. induction cs as [|v cs IH]; intros rl; simpl.
  - by destruct f.
  - destruct len; simpl; apply IH.
Qed.

Lemma starts_of_app t1 t2 : starts_of (t1 ++ t2) = starts_of t1 ++ starts_of t2.
Proof. apply omap_app. Qed.

Lemma errors_of_app t1 t2 : errors_of (t1 ++ t2) = errors_of t1 ++ errors_of t2.
Proof. apply omap_app. Qed.

Lemma fetches_of_app t1 t2 : fetches_of (t1 ++ t2) = fetches_of t1 ++ fetches_of t2.
Proof. apply omap_app. Qed.

Lemma progress_values_app t1 t2 :
  progress_values (t1 ++ t2) = progress_values t1 ++ progress_values t2.
Proof. apply omap_app. Qed.

Ltac trace_simpl :=
  repeat (rewrite ?starts_of_app, ?errors_of_app, ?fetches_of_app,
            ?starts_of_read_trace, ?errors_of_read_trace, ?fetches_of_read_trace;
          simpl).

(** ** Every iteration completes: one entry, one start, errors recorded *)

Lemma process_asset_entry sc total asset r :
  ∃ w' entry,
    outcome_of (process_asset sc total asset r) = inr () ∧
    state_of (process_asset sc total asset r) =
      {| world := w'; completed := completed r + 1;
         results := results r ++ [entry] |} ∧
    entry_url entry = a_url asset ∧ entry_name entry = a_name asset ∧
    starts_of (trace_of (process_asset sc total asset r)) =
      [(a_url asset, a_name asset)] ∧
    errors_of (trace_of (process_asset sc total asset r)) = failed_of [entry].
Proof.
  iter_cases; do 2 eexists; repeat split; trace_simpl; reflexivity.
Qed.

Lemma for_each_asset_cons env total i asset rest r :
  for_each_asset env total i (asset :: rest) r =
  let x := process_asset (env i) total asset r in
  match outcome_of x with
  | inl e => (inl e, state_of x, trace_of x)
  | inr _ =>
      let y := for_each_asset env total (S i) rest (state_of x) in
      (outcome_of y, state_of y, trace_of x ++ trace_of y)
  end.
Proof.
  simpl. unfold mbind, M_bind, outcome_of, state_of, trace_of.
  destruct (process_asset (env i) total asset r) as [[[e|[]] r1] t1]; simpl;
    [reflexivity|].
  by destruct (for_each_asset env total (S i) rest r1) as [[o2 r2] t2].
Qed.

Lemma state_of_for_each_cons env total i a rest r :
  state_of (for_each_asset env total i (a :: rest) r) =
  state_of (for_each_asset env total (S i) rest
              (state_of (process_asset (env i) total a r))).
Proof.
  rewrite for_each_asset_cons. cbv zeta.
  destruct (process_asset_entry (env i) total a r) as (? & ? & Ho & _).
  by rewrite Ho.
Qed.

Lemma failed_of_app rs1 rs2 : failed_of (rs1 ++ rs2) = failed_of rs1 ++ failed_of rs2.
Proof. apply omap_app. Qed.

Lemma for_each_asset_entries assetList : ∀ env total i r,
  ∃ w' rs,
    outcome_of (for_each_asset env total i assetList r) = inr () ∧
    state_of (for_each_asset env total i assetList r) =
      {| world := w'; completed := completed r + Z.of_nat (length assetList);
         results := results r ++ rs |} ∧
    map (λ e, (entry_url e, entry_name e)) rs =
      map (λ a, (a_url a, a_name a)) assetList ∧
    starts_of (trace_of (for_each_asset env total i assetList r)) =
      map (λ a, (a_url a, a_name a)) assetList ∧
    errors_of (trace_of (for_each_asset env total i assetList r)) = failed_of rs.
Proof.
  induction assetList as [|asset rest IH]; intros env total i r.
  - exists (world r), []. simpl. rewrite Z.add_0_r, app_nil_r. by destruct r.
  - rewrite for_each_asset_cons.
    destruct (process_asset_entry (env i) total asset r)
      as (w1 & entry & Ho & Hs & Hu & Hn & Hst & Her).
    cbv zeta. rewrite Ho, Hs.
    destruct (IH env total (S i)
                {| world := w1; completed := completed r + 1;
                   results := results r ++ [entry] |})
      as (w2 & rs & Ho2 & Hs2 & Hk & Hst2 & Her2).
    exists w2, (entry :: rs). unfold outcome_of, state_of, trace_of in *. simpl in *.
    rewrite Ho2, Hs2, starts_of_app, errors_of_app, Hst, Hst2, Her, Her2, Hk, Hu, Hn.
    rewrite <- app_assoc. simpl.
    repeat split; try reflexivity.
    + f_equal. lia.
    + by destruct entry.
Qed.

Lemma prefetchAssets_run env assetList w :
  prefetchAssets env assetList w =
  let x := for_each_asset env (Z.of_nat (length assetList)) 0 assetList
             {| world := w; completed := 0; results := [] |} in
  (match outcome_of x with inl e => inl e | inr _ => inr (results (state_of x)) end,
   world (state_of x), trace_of x).
Proof.
  unfold prefetchAssets, outcome_of, state_of, trace_of.
  by destruct (for_each_asset _ _ _ _ _) as [[o r] t].
Qed.





(** C2.  When the lookup of an item's identifier answers with a record, the
    iteration performs no network fetch: [completed] is incremented by 1,
    [onProgress] and then [onFileComplete] are invoked, the latter with the
    size of the record found, the entry pushed is a cached one with that
    size, and the stores are left as they were. *)
Theorem C2_cache_hit_short_circuit sc total asset r meta :
  outcome_of (getAssetMeta (sc_lookup sc) (a_url asset) (world r)) = inr (Some meta) →
  process_asset sc total asset r =
    (inr (),
     {| world := world r;
        completed := completed r + 1;
        results := results r ++ [ResSize (a_url asset) (a_name asset) true (size meta)] |},
     [FileStart (a_url asset) (a_name asset);
      DbGet (a_url asset);
      Progress (inject_Z (completed r + 1)) total (a_name asset);
      FileComplete (a_url asset) (a_name asset) (size meta)]) ∧
  fetches_of (trace_of (process_asset sc total asset r)) = [].
Proof.
  intros H. unfold getAssetMeta in H. run_m. simpl in H.
  destruct (sc_lookup sc) eqn:Hl; simpl in H; [discriminate|].
  injection H as H.
  unfold process_asset. run_m. simpl. rewrite Hl. simpl. rewrite H. simpl.
  split; [|reflexivity]. by destruct r.
Qed.

(** C2, witness: [hall] has a record of 1000 bytes; the server would answer
    404, and is not asked. *)
Lemma C2_cache_hit_witness :
  process_asset (answers response_404) 2 hall
    {| world := hall_cached; completed := 0; results := [] |} =
    (inr (),
     {| world := hall_cached; completed := 0 + 1;
        results := [] ++ [ResSize "/models/hall.glb" "Hall" true 1000] |},
     [FileStart "/models/hall.glb" "Hall";
      DbGet "/models/hall.glb";
      Progress (inject_Z (0 + 1)) 2 "Hall";
      FileComplete "/models/hall.glb" "Hall" 1000]) ∧
  fetches_of (trace_of (process_asset (answers response_404) 2 hall
                          {| world := hall_cached; completed := 0; results := [] |})) = [].
Proof.
  apply (C2_cache_hit_short_circuit (answers response_404) 2 hall
           {| world := hall_cached; completed := 0; results := [] |}
           {| url := "/models/hall.glb"; size := 1000; contentType := None;
              etag := None; lastModified := None; timestamp := 1700000000000 |}).
  reflexivity.
Defined.

(** ** The metadata store across iterations *)

(** An iteration never replaces or removes a record, and an entry without
    [error] is backed by a record of the reported size. *)
Lemma process_asset_store sc total asset r :
  ∃ w' entry,
    state_of (process_asset sc total asset r) =
      {| world := w'; completed := completed r + 1;
         results := results r ++ [entry] |} ∧
    (∀ k rec, db (world r) !! k = Some rec → db w' !! k = Some rec) ∧
    recorded_in (db w') asset entry.
Proof.
  unfold recorded_in.
  iter_cases; do 2 eexists; (split; [reflexivity|]); simpl;
    (split; [|repeat split; eauto]); try done.
  - intros k rec Hk. destruct (decide (a_url asset = k)) as [<-|Hne].
    + congruence.
    + by rewrite lookup_insert_ne.
  - eexists. by rewrite lookup_insert_eq.
Qed.

(** An iteration on an item that has a record fetches nothing and leaves the
    stores as they are; when its lookup answers, it reports the hit. *)
Lemma process_asset_recorded sc total asset r rec :
  db (world r) !! a_url asset = Some rec →
  ∃ entry,
    state_of (process_asset sc total asset r) =
      {| world := world r; completed := completed r + 1;
         results := results r ++ [entry] |} ∧
    fetches_of (trace_of (process_asset sc total asset r)) = [] ∧
    (sc_lookup sc = None →
     entry = ResSize (a_url asset) (a_name asset) true (size rec)).
Proof.
  intros Hrec. unfold process_asset. run_m. simpl.
  destruct (sc_lookup sc); simpl.
  - eexists. split; [by destruct r|]. split; [done|]. discriminate.
  - rewrite Hrec. simpl. eexists. split; [by destruct r|]. by split.
Qed.

Lemma for_each_asset_store assetList : ∀ env total i r,
  ∃ w' rs,
    state_of (for_each_asset env total i assetList r) =
      {| world := w'; completed := completed r + Z.of_nat (length assetList);
         results := results r ++ rs |} ∧
    (∀ k rec, db (world r) !! k = Some rec → db w' !! k = Some rec) ∧
    Forall2 (recorded_in (db w')) assetList rs.
Proof.
  induction assetList as [|asset rest IH]; intros env total i r.
  - exists (world r), []. simpl. rewrite Z.add_0_r, app_nil_r.
    split; [by destruct r|]. by split.
  - rewrite for_each_asset_cons. cbv zeta.
    destruct (process_asset_entry (env i) total asset r) as (? & ? & Ho & _).
    rewrite Ho.
    destruct (process_asset_store (env i) total asset r)
      as (w1 & entry & Hs & Hkeep & Hrec).
    rewrite Hs.
    destruct (IH env total (S i)
                {| world := w1; completed := completed r + 1;
                   results := results r ++ [entry] |})
      as (w2 & rs & Hs2 & Hkeep2 & Hall).
    exists w2, (entry :: rs). unfold state_of in *. simpl in *. rewrite Hs2.
    rewrite <- app_assoc. simpl. split; [f_equal; lia|]. split; [by auto|].
    constructor; [|done].
    destruct Hrec as (Hu & Hn & Hsz). repeat split; try done.
    destruct entry; [|done]. destruct Hsz as (rec & Hl & Hsz). eauto.
Qed.

Lemma for_each_asset_recorded assetList : ∀ env total i r,
  Forall (λ a, is_Some (db (world r) !! a_url a)) assetList →
  ∃ rs,
    state_of (for_each_asset env total i assetList r) =
      {| world := world r; completed := completed r + Z.of_nat (length assetList);
         results := results r ++ rs |} ∧
    fetches_of (trace_of (for_each_asset env total i assetList r)) = [] ∧
    ((∀ j, (j < length assetList)%nat → sc_lookup (env (i + j)%nat) = None) →
     Forall2 (hit_from (db (world r))) assetList rs).
Proof.
  induction assetList as [|asset rest IH]; intros env total i r Hall.
  - exists []. simpl. rewrite Z.add_0_r, app_nil_r.
    split; [by destruct r|]. by split.
  - rewrite for_each_asset_cons. cbv zeta.
    destruct (process_asset_entry (env i) total asset r) as (? & ? & Ho & _).
    rewrite Ho.
    inversion Hall as [|? ? [rec Hrec] Hrest]; subst.
    destruct (process_asset_recorded (env i) total asset r rec Hrec)
      as (entry & Hs & Hf & Hhit).
    rewrite Hs.
    destruct (IH env total (S i)
                {| world := world r; completed := completed r + 1;
                   results := results r ++ [entry] |} Hrest)
      as (rs & Hs2 & Hf2 & Hhits).
    exists (entry :: rs). unfold state_of, trace_of in *. simpl in *.
    rewrite Hs2, fetches_of_app, Hf, Hf2. rewrite <- app_assoc. simpl.
    split; [f_equal; lia|]. split; [done|].
    intros Hlook. constructor.
    + exists rec. split; [done|]. apply Hhit.
      specialize (Hlook 0%nat). rewrite Nat.add_0_r in Hlook. apply Hlook. lia.
    + apply Hhits. intros j Hj. specialize (Hlook (S j)).
      rewrite Nat.add_succ_r in Hlook. apply Hlook. lia.
Qed.

Lemma hits_of_downloads store assetList : ∀ rs1 rs2,
  Forall2 (recorded_in store) assetList rs1 →
  Forall2 (hit_from store) assetList rs2 →
  forallb is_downloaded rs1 = true →
  rs2 = map as_cached rs1.
Proof.
  induction assetList as [|a rest IH]; intros rs1 rs2 H1 H2 Hd.
  - inversion H1; inversion H2; by subst.
  - inversion H1 as [|? e1 ? rs1' (Hu & Hn & Hsz) H1']; subst.
    inversion H2 as [|? e2 ? rs2' (rec & Hrec & ->) H2']; subst.
    simpl in Hd. apply andb_prop in Hd as [Hd1 Hd].
    simpl. f_equal; [|by apply IH].
    destruct e1 as [u n [] s|]; try discriminate. simpl in *.
    destruct Hsz as (rec' & Hrec' & <-). congruence.
Qed.

(** C3.  After a first run in which every item was downloaded, a second run
    over the same request list, started on the stores the first run left,
    performs no network request at all; and when the second run's lookups
    are answered, every item resolves as cached with the size the first run
    reported for it. *)
Theorem C3_rerun_resolves_from_cache env1 env2 assetList w rs1 :
  outcome_of (prefetchAssets env1 assetList w) = inr rs1 →
  forallb is_downloaded rs1 = true →
  let w1 := state_of (prefetchAssets env1 assetList w) in
  fetches_of (trace_of (prefetchAssets env2 assetList w1)) = [] ∧
  ((∀ i, (i < length assetList)%nat → sc_lookup (env2 i) = None) →
   outcome_of (prefetchAssets env2 assetList w1) = inr (map as_cached rs1)).
Proof.
  intros Hrun Hdl w1. subst w1. rewrite !prefetchAssets_run in *. cbv zeta in *.
  set (total := Z.of_nat (length assetList)) in *.
  set (r0 := {| world := w; completed := 0; results := [] |}) in *.
  destruct (for_each_asset_entries assetList env1 total 0%nat r0)
    as (? & ? & Ho & _).
  destruct (for_each_asset_store assetList env1 total 0%nat r0)
    as (w1 & rs & Hs & _ & Hrec).
  unfold outcome_of, state_of, trace_of in *. simpl in *.
  rewrite Ho, Hs in Hrun. simpl in Hrun. injection Hrun as ->.
  rewrite Hs. simpl.
  set (r1 := {| world := w1; completed := 0; results := [] |}).
  assert (Hall : Forall (λ a, is_Some (db (world r1) !! a_url a)) assetList).
  { clear -Hrec Hdl. simpl. revert Hdl.
    induction Hrec as [|a e ? ? (_ & _ & Hsz) ? IH]; intros Hdl; [done|].
    simpl in Hdl. apply andb_prop in Hdl as [Hd Hdl].
    constructor; [|by apply IH].
    destruct e; [|discriminate]. destruct Hsz as (rec & -> & _). eauto. }
  destruct (for_each_asset_entries assetList env2 total 0%nat r1)
    as (? & ? & Ho2 & _).
  destruct (for_each_asset_recorded assetList env2 total 0%nat r1 Hall)
    as (rs2 & Hs2 & Hf & Hhits).
  unfold outcome_of, state_of, trace_of in *. simpl in *.
  split; [done|]. intros Hlook.
  rewrite Ho2, Hs2. simpl. f_equal.
  by apply (hits_of_downloads (db w1) assetList); [| apply Hhits |].
Qed.

(** C3, witness: both items are downloaded in the first run; in the second
    run the server would answer 404, and is not asked. *)
Lemma C3_rerun_witness :
  let w1 := state_of (prefetchAssets (λ _, answers response_1000) [hall; plan] empty_world) in
  fetches_of (trace_of (prefetchAssets (λ _, answers response_404) [hall; plan] w1)) = [] ∧
  outcome_of (prefetchAssets (λ _, answers response_404) [hall; plan] w1) =
    inr [ResSize "/models/hall.glb" "Hall" true 1000;
         ResSize "/models/plan.json" "Light plan" true 1000].
Proof.
  cbv zeta.
  destruct (C3_rerun_resolves_from_cache
              (λ _, answers response_1000) (λ _, answers response_404)
              [hall; plan] empty_world
              [ResSize "/models/hall.glb" "Hall" false 1000;
               ResSize "/models/plan.json" "Light plan" false 1000])
    as [Hfetch Hcached].
  - by vm_compute.
  - reflexivity.
  - split; [exact Hfetch|]. apply Hcached. reflexivity.
Defined.

(** ** Progress values *)

Lemma fraction_mono (c a b l : Z) :
  0 < l → a ≤ b →
  (inject_Z c + inject_Z a / inject_Z l <= inject_Z c + inject_Z b / inject_Z l)%Q.
Proof.
  intros Hl Hab. apply Qplus_le_r. apply Qmult_le_compat_r.
  - by rewrite <- Zle_Qle.
  - apply Qinv_le_0_compat. change (inject_Z 0 <= inject_Z l)%Q.
    rewrite <- Zle_Qle. lia.
Qed.

Lemma fraction_le_one (c b l : Z) :
  0 < l → b ≤ l →
  (inject_Z c + inject_Z b / inject_Z l <= inject_Z (c + 1))%Q.
Proof.
  intros Hl Hb. rewrite inject_Z_plus. apply Qplus_le_r.
  apply Qle_shift_div_r.
  - change (inject_Z 0 < inject_Z l)%Q. rewrite <- Zlt_Qlt. lia.
  - rewrite Qmult_1_l. by rewrite <- Zle_Qle.
Qed.

Lemma fraction_ge_zero (c a l : Z) :
  0 < l → 0 ≤ a →
  (inject_Z c <= inject_Z c + inject_Z a / inject_Z l)%Q.
Proof.
  intros Hl Ha. rewrite <- (Qplus_0_r (inject_Z c)) at 1. apply Qplus_le_r.
  apply Qle_shift_div_l.
  - change (inject_Z 0 < inject_Z l)%Q. rewrite <- Zlt_Qlt. lia.
  - rewrite Qmult_0_l. change (inject_Z 0 <= inject_Z a)%Q. by rewrite <- Zle_Qle.
Qed.

Lemma bytes_of_nonneg cs : 0 ≤ bytes_of cs.
Proof. induction cs; simpl; lia. Qed.

Lemma positive_length_pos cl l : positive_length cl = Some l → 0 < l.
Proof.
  unfold positive_length. destruct cl as [n|]; [|done].
  destruct (0 <? n) eqn:H; [|done]. intros [= <-]. lia.
Qed.

Lemma read_trace_progress_none u name total c rl cs f :
  progress_values (read_trace u name total None c rl cs f) = [].
Proof.
  revert rl. induction cs as [|v cs IH]; intros rl; simpl; [by destruct f|apply IH].
Qed.

(** While the bytes received stay within the declared length, the fractional
    values of one item grow and stay within its unit interval. *)
Lemma read_trace_progress u name total l c cs f : ∀ rl,
  0 < l → 0 ≤ rl → rl + bytes_of cs ≤ l →
  let vals := progress_values (read_trace u name total (Some l) c rl cs f) in
  StronglySorted Qle vals ∧
  Forall (λ v, (inject_Z c + inject_Z rl / inject_Z l <= v)%Q ∧
               (v <= inject_Z (c + 1))%Q) vals.
Proof.
  induction cs as [|v cs IH]; intros rl Hl Hrl Hle; simpl in *.
  - destruct f; simpl; split; constructor.
  - pose proof (bytes_of_nonneg cs).
    destruct (IH (rl + Z.of_nat (length v))) as [Hs Hb]; [lia..|].
    split.
    + constructor; [done|]. eapply Forall_impl; [exact Hb|]. by intros ? [? _].
    + constructor.
      * split; [apply fraction_mono; lia | apply fraction_le_one; lia].
      * eapply Forall_impl; [exact Hb|]. intros q [Hq ?]. split; [|done].
        eapply Qle_trans; [|exact Hq]. apply fraction_mono; lia.
Qed.

Lemma between_final c : between c (c + 1) (inject_Z (c + 1)).
Proof. split; [rewrite <- Zle_Qle; lia | apply Qle_refl]. Qed.

Lemma read_then_final u name total cl c cs f :
  let vals :=
    progress_values (read_trace u name total (positive_length cl) c 0 cs f)
    ++ [inject_Z (c + 1)] in
  last vals = Some (inject_Z (c + 1)) ∧
  (match positive_length cl with
   | Some len => bytes_of cs ≤ len
   | None => True
   end →
   StronglySorted Qle vals ∧ Forall (between c (c + 1)) vals).
Proof.
  cbv zeta. split; [apply last_snoc|].
  destruct (positive_length cl) as [l|] eqn:Hl.
  - intros Hle. apply positive_length_pos in Hl.
    destruct (read_trace_progress u name total l c cs f 0) as [Hs Hb]; [lia..|].
    split.
    + apply StronglySorted_app_2; [|done|repeat constructor].
      intros x y Hx Hy. apply list_elem_of_singleton in Hy as ->.
      rewrite Forall_forall in Hb. by apply Hb.
    + apply Forall_app. split; [|repeat constructor; apply between_final].
      eapply Forall_impl; [exact Hb|]. intros q [Hq ?]. split; [|done].
      eapply Qle_trans; [|exact Hq]. apply fraction_ge_zero; lia.
  - intros _. rewrite read_trace_progress_none. simpl.
    split; repeat constructor; apply between_final.
Qed.

(** The progress values of one iteration: the last one is the starting count
    plus one; within the declared length they grow inside the item's unit. *)
Lemma process_asset_progress sc total asset r :
  let vals := progress_values (trace_of (process_asset sc total asset r)) in
  last vals = Some (inject_Z (completed r + 1)) ∧
  (within_declared sc →
   StronglySorted Qle vals ∧ Forall (between (completed r) (completed r + 1)) vals).
Proof.
  unfold within_declared, declared_length. iter_cases.
  all: rewrite ?progress_values_app; simpl.
  all: try (split; [reflexivity|]; intros _;
            split; repeat constructor; apply between_final).
  all: rewrite ?app_nil_r; apply read_then_final.
Qed.

Lemma for_each_asset_progress assetList : ∀ env total i r,
  (∀ j, (j < length assetList)%nat → within_declared (env (i + j)%nat)) →
  let vals := progress_values (trace_of (for_each_asset env total i assetList r)) in
  StronglySorted Qle vals ∧
  Forall (between (completed r) (completed r + Z.of_nat (length assetList))) vals.
Proof.
  induction assetList as [|asset rest IH]; intros env total i r Hdecl; cbv zeta.
  - simpl. split; constructor.
  - rewrite for_each_asset_cons. cbv zeta.
    destruct (process_asset_entry (env i) total asset r)
      as (w1 & entry & Ho & Hs & _).
    rewrite Ho, Hs.
    destruct (process_asset_progress (env i) total asset r) as [_ Hp].
    destruct Hp as [Hs1 Hb1].
    { specialize (Hdecl 0%nat). rewrite Nat.add_0_r in Hdecl. apply Hdecl.
      simpl. lia. }
    destruct (IH env total (S i)
                {| world := w1; completed := completed r + 1;
                   results := results r ++ [entry] |}) as [Hs2 Hb2].
    { intros j Hj. specialize (Hdecl (S j)). rewrite Nat.add_succ_r in Hdecl.
      apply Hdecl. simpl. lia. }
    unfold trace_of in *. simpl in *. rewrite progress_values_app.
    rewrite Forall_forall in Hb1, Hb2.
    split.
    + apply StronglySorted_app_2; [|done..].
      intros x y Hx Hy. apply Hb1 in Hx as [_ Hx]. apply Hb2 in Hy as [Hy _].
      by eapply Qle_trans.
    + apply Forall_app. split; apply Forall_forall; intros x Hx.
      * apply Hb1 in Hx as [Hlo Hhi]. split; [done|].
        eapply Qle_trans; [exact Hhi|]. rewrite <- Zle_Qle. lia.
      * apply Hb2 in Hx as [Hlo Hhi]. split.
        -- eapply Qle_trans; [|exact Hlo]. rewrite <- Zle_Qle. lia.
        -- eapply Qle_trans; [exact Hhi|]. rewrite <- Zle_Qle. lia.
Qed.

(** C4, as the code has it.  In a run in which no response delivers more
    bytes than the content length it declares, the first arguments of the
    successive [onProgress] calls are non-decreasing and lie between 0 and
    the number of requests.  In every iteration, whatever the platform
    answers, the last [onProgress] call carries exactly the count at the
    start of the item plus 1. *)
Theorem C4_progress_monotone_within_declared env assetList w :
  (∀ i, (i < length assetList)%nat → within_declared (env i)) →
  let vals := progress_values (trace_of (prefetchAssets env assetList w)) in
  StronglySorted Qle vals ∧
  Forall (between 0 (Z.of_nat (length assetList))) vals ∧
  (∀ sc total asset r,
     last (progress_values (trace_of (process_asset sc total asset r))) =
     Some (inject_Z (completed r + 1))).
Proof.
  intros Hdecl. cbv zeta. rewrite prefetchAssets_run. cbv zeta.
  unfold trace_of at 1 2. simpl.
  destruct (for_each_asset_progress assetList env (Z.of_nat (length assetList))
              0%nat {| world := w; completed := 0; results := [] |} Hdecl)
    as [Hs Hb].
  split; [done|]. split; [done|].
  intros sc total asset r. apply process_asset_progress.
Qed.

(** C4, witness: the 1000 bytes declared arrive in four chunks of 250. *)
Lemma C4_progress_witness :
  let vals := progress_values (trace_of (prefetchAssets (λ _, answers response_1000) [hall] empty_world)) in
  StronglySorted Qle vals ∧
  Forall (between 0 1) vals ∧
  (∀ sc total asset r,
     last (progress_values (trace_of (process_asset sc total asset r))) =
     Some (inject_Z (completed r + 1))).
Proof.
  apply (C4_progress_monotone_within_declared (λ _, answers response_1000) [hall] empty_world).
  intros i _. vm_compute. discriminate.
Defined.

(** C4, as stated, fails: a response that declares 100 bytes and delivers 250
    makes [onProgress] report 2.5 of 1 and then 1. *)
Lemma C4_progress_counterexample :
  let vals := progress_values
                (trace_of (prefetchAssets (λ _, answers response_encoded) [hall] empty_world)) in
  vals = [(0 + 250 / 100)%Q; 1%Q] ∧
  ¬ StronglySorted Qle vals ∧
  ¬ Forall (λ v, (v <= inject_Z 1)%Q) vals.
Proof.
  cbv zeta. split; [by vm_compute|]. split.
  - intros H. apply StronglySorted_inv in H as [_ H].
    apply Forall_inv in H. vm_compute in H. by apply H.
  - intros H. apply Forall_inv in H. vm_compute in H. by apply H.
Qed.

(** ** The failure path *)

(** C5, as the code has it.  For an item whose download fails (the fetch is
    rejected, or the response is not [ok]), the [catch] block first invokes
    [onFileError] with the identifier, the display name and the error, then
    increments [completed] by 1 and invokes [onProgress] with the new count;
    the entry pushed carries the error's message and the stores are left as
    they were. *)
Theorem C5_failure_reports_error_then_progress sc total asset r e :
  outcome_of (getAssetMeta (sc_lookup sc) (a_url asset) (world r)) = inr None →
  download_failure sc = Some e →
  process_asset sc total asset r =
    (inr (),
     {| world := world r;
        completed := completed r + 1;
        results := results r ++ [ResError (a_url asset) (a_name asset) (message e)] |},
     [FileStart (a_url asset) (a_name asset);
      DbGet (a_url asset);
      NetFetch (a_url asset);
      FileError (a_url asset) (a_name asset) e;
      Progress (inject_Z (completed r + 1)) total (a_name asset)]).
Proof.
  intros Hget Hfail. unfold getAssetMeta in Hget. run_m. simpl in Hget.
  destruct (sc_lookup sc) eqn:Hl; simpl in Hget; [discriminate|].
  injection Hget as Hget. unfold download_failure in Hfail.
  unfold process_asset. run_m. simpl. rewrite Hl. simpl. rewrite Hget. simpl.
  destruct (sc_fetch sc) as [e'|resp]; simpl.
  - injection Hfail as ->. by destruct r.
  - destruct (ok resp); [discriminate|]. injection Hfail as <-. simpl.
    by destruct r.
Qed.

(** C5, witness: the server answers 404. *)
Lemma C5_failure_witness :
  process_asset (answers response_404) 1 hall
    {| world := empty_world; completed := 0; results := [] |} =
    (inr (),
     {| world := empty_world; completed := 1;
        results := [ResError "/models/hall.glb" "Hall" "HTTP 404: Not Found"] |},
     [FileStart "/models/hall.glb" "Hall";
      DbGet "/models/hall.glb";
      NetFetch "/models/hall.glb";
      FileError "/models/hall.glb" "Hall" {| message := "HTTP 404: Not Found" |};
      Progress (inject_Z 1) 1 "Hall"]).
Proof.
  apply (C5_failure_reports_error_then_progress (answers response_404) 1 hall
           {| world := empty_world; completed := 0; results := [] |}
           {| message := "HTTP 404: Not Found" |}).
  - reflexivity.
  - reflexivity.
Defined.

(** C5, as stated, fails: on a 404 the callbacks are [onFileStart],
    [onFileError], [onProgress], in that order; no [onFileError] call comes
    after an [onProgress] call. *)
Lemma C5_failure_order_counterexample :
  let t := trace_of (prefetchAssets (λ _, answers response_404) [hall] empty_world) in
  callbacks_of t =
    [FileStart "/models/hall.glb" "Hall";
     FileError "/models/hall.glb" "Hall" {| message := "HTTP 404: Not Found" |};
     Progress (inject_Z 1) 1 "Hall"] ∧
  error_follows_progress false t = false.
Proof. by vm_compute. Qed.

(** ** The metadata store's put *)

(** C6, as the code has it.  [saveAssetMeta] is an upsert: whatever record
    the store held for the identifier, it now holds the new object, and the
    other records are untouched.  The new object's timestamp is always the
    current time: a timestamp the caller set in [meta] is replaced.  A
    rejected put leaves the store as it was. *)
Theorem C6_put_upserts_and_always_stamps now u meta w :
  let x := saveAssetMeta None now u meta w in
  outcome_of x = inr () ∧
  db (state_of x) !! u =
    Some {| url := u; size := mf_size meta; contentType := mf_contentType meta;
            etag := mf_etag meta; lastModified := mf_lastModified meta;
            timestamp := now |} ∧
  (∀ k, k ≠ u → db (state_of x) !! k = db w !! k) ∧
  caches (state_of x) = caches w ∧
  (∀ e, state_of (saveAssetMeta (Some e) now u meta w) = w).
Proof.
  cbv zeta. run_m. simpl. split; [done|]. split; [by rewrite lookup_insert_eq|].
  split; [|done]. intros k Hk. by rewrite lookup_insert_ne.
Qed.

(** C6, as stated, fails: the caller's timestamp 5 is not preserved; the
    record is stamped with the current time 9. *)
Lemma C6_caller_timestamp_counterexample :
  let stored := db (state_of (saveAssetMeta None 9 "/models/hall.glb" stamped_meta empty_world))
                  !! "/models/hall.glb" in
  mf_timestamp stamped_meta = Some 5 ∧
  timestamp <$> stored = Some 9 ∧
  timestamp <$> stored ≠ mf_timestamp stamped_meta.
Proof. by vm_compute. Qed.

(** ** [clearAllCaches] *)

Lemma promise_all_deletes sc names : ∀ w,
  (∀ n, cl_delete sc n = None) →
  let x := promise_all (omap (delete_if_ours sc) names) w in
  outcome_of x = inr () ∧
  db (state_of x) = db w ∧
  ∀ k, caches (state_of x) !! k =
       if decide (k ∈ names ∧ String.prefix "xr-cache-" k = true)
       then None else caches w !! k.
Proof.
  induction names as [|n names IH]; intros w Hdel; cbv zeta.
  - simpl. by repeat split.
  - assert (Hstep : omap (delete_if_ours sc) (n :: names) =
                    match delete_if_ours sc n with
                    | Some job => job :: omap (delete_if_ours sc) names
                    | None => omap (delete_if_ours sc) names
                    end) by reflexivity.
    rewrite Hstep. clear Hstep.
    destruct (delete_if_ours sc n) as [job|] eqn:Hjob;
      unfold delete_if_ours in Hjob;
      destruct (String.prefix "xr-cache-" n) eqn:Hp; simplify_eq.
    + rewrite Hdel. simpl. run_m. simpl.
      destruct (IH (set_caches (delete n) w) Hdel) as (Ho & Hdb & Hc).
      unfold outcome_of, state_of in *.
      destruct (promise_all _ _) as [[o s] t]. simpl in *.
      split; [done|]. split; [done|]. intros k. rewrite Hc.
      destruct (decide (k = n)) as [->|Hne].
      * rewrite lookup_delete_eq.
        rewrite (decide_True (P := n ∈ n :: names ∧ _))
          by (split; [apply elem_of_cons; by left | done]).
        by case_decide.
      * rewrite lookup_delete_ne by done. apply decide_ext.
        rewrite elem_of_cons.
        split; [intros [? ?]; split; [by right|done]|].
        intros [[?|?] ?]; [done|by split].
    + destruct (IH w Hdel) as (Ho & Hdb & Hc).
      split; [done|]. split; [done|]. intros k. rewrite Hc.
      apply decide_ext. rewrite elem_of_cons.
      split; [intros [? ?]; split; [by right|done]|].
      intros [[->|?] Hk]; [congruence|done].
Qed.

(** C7, as the code has it.  The three steps share one [try] block and the
    result is one boolean.  When the step through the worker throws,
    [clearAllCaches] stops there: it returns [false] and leaves the Content
    Cache and the metadata store as they were.  When the worker replies,
    whatever it replies, the reply is dropped: once the page's own deletions
    and the metadata clear succeed, every [xr-cache-] cache is gone, the
    metadata store is empty, and the result is [true]. *)
Theorem C7_clear_all_worker_step sc w :
  (∀ e, cl_sw sc = SwThrows e → clearAllCaches sc w = (inr false, w, [])) ∧
  (∀ reply_ok deleted,
     cl_sw sc = SwReplies reply_ok deleted →
     cl_keys sc = None → (∀ n, cl_delete sc n = None) → cl_db sc = None →
     let x := clearAllCaches sc w in
     outcome_of x = inr true ∧
     db (state_of x) = ∅ ∧
     ∀ n, String.prefix "xr-cache-" n = true → caches (state_of x) !! n = None).
Proof.
  split.
  - intros e Hsw. unfold clearAllCaches, sw_clear. rewrite Hsw. by run_m.
  - intros reply_ok deleted Hsw Hkeys Hdel Hdb. cbv zeta.
    unfold clearAllCaches, sw_clear. rewrite Hsw, Hkeys, Hdb.
    unfold caches_keys, clearAssetMeta. run_m. simpl.
    set (w1 := set_caches _ w).
    destruct (promise_all_deletes sc (map fst (map_to_list (caches w1))) w1 Hdel)
      as (Ho & Hd & Hc).
    unfold outcome_of, state_of in *.
    destruct (promise_all _ _) as [[o s] t]. simpl in *. subst o. simpl.
    split; [done|]. split; [done|]. intros n Hn. rewrite Hc.
    case_decide as Hin; [done|].
    destruct (caches w1 !! n) as [c|] eqn:Hl; [|done].
    exfalso. apply Hin. split; [|done].
    apply list_elem_of_fmap. exists (n, c). split; [done|].
    by apply elem_of_map_to_list.
Qed.

(** C7, witness: the worker throws, and the worker replies with a failure. *)
Lemma C7_clear_all_witness :
  clearAllCaches worker_throws hall_cached = (inr false, hall_cached, []) ∧
  (let x := clearAllCaches worker_reports_failure hall_cached in
   outcome_of x = inr true ∧
   db (state_of x) = ∅ ∧
   ∀ n, String.prefix "xr-cache-" n = true → caches (state_of x) !! n = None).
Proof.
  split.
  - apply (proj1 (C7_clear_all_worker_step worker_throws hall_cached)
             {| message := "SecurityError" |}).
    reflexivity.
  - apply (proj2 (C7_clear_all_worker_step worker_reports_failure hall_cached)
             false []); reflexivity.
Defined.

(** C7, as stated, fails.  When the worker step throws, the operation aborts
    and both stores keep their entries; when the worker reports a failure,
    the result is plain success. *)
Lemma C7_clear_all_counterexample :
  (let x := clearAllCaches worker_throws hall_cached in
   outcome_of x = inr false ∧
   is_Some (db (state_of x) !! "/models/hall.glb") ∧
   is_Some (caches (state_of x) !! "xr-cache-v1")) ∧
  outcome_of (clearAllCaches worker_reports_failure hall_cached) = inr true.
Proof.
  split; [|by vm_compute].
  split; [by vm_compute|]. split; vm_compute; eauto.
Qed.

(** ** [getCacheInfo] *)

Lemma or_zero_id x : or_zero x = x.
Proof. unfold or_zero. destruct (x =? 0) eqn:H; [|done]. lia. Qed.

Lemma reduce_sum_sizes records : ∀ acc,
  foldl (λ sum item, sum + or_zero (size item)) acc records = acc + sum_sizes records.
Proof.
  induction records as [|rec records IH]; intros acc; simpl; [lia|].
  rewrite IH, or_zero_id. lia.
Qed.

Lemma math_max_spec ts : ∀ t,
  math_max t ts ∈ t :: ts ∧ Forall (λ x, x ≤ math_max t ts) (t :: ts).
Proof.
  unfold math_max. induction ts as [|t' ts IH]; intros t; simpl.
  - split; [apply elem_of_cons; by left|]. by repeat constructor.
  - destruct (IH (Z.max t t')) as [Hin Hall].
    apply Forall_cons in Hall as [Hm Hall]. split.
    + apply elem_of_cons in Hin as [Heq|Hin].
      * rewrite Heq. destruct (Z.max_spec t t') as [[_ ->]|[_ ->]].
        -- apply elem_of_cons. right. apply elem_of_cons. by left.
        -- apply elem_of_cons. by left.
      * apply elem_of_cons. right. apply elem_of_cons. by right.
    + repeat constructor; [lia..|done].
Qed.

(** C8.  [getCacheInfo] reads the metadata store and nothing else: its only
    platform call is [getAll] on the store, it leaves both stores as they
    are, and its result does not depend on what Cache Storage holds.  The
    file count is the number of records, the total size is the sum of the
    records' sizes, and the latest update is [null] when there is no record
    and otherwise the greatest timestamp among the records. *)
Theorem C8_cache_info_from_metadata w :
  let x := getCacheInfo None w in
  ∃ info,
    outcome_of x = inr (Some info) ∧
    assets info = map snd (map_to_list (db w)) ∧
    files info = Z.of_nat (base.size (db w)) ∧
    totalSize info = sum_sizes (assets info) ∧
    (db w = ∅ → latestUpdate info = None) ∧
    (db w ≠ ∅ →
     ∃ m, latestUpdate info = Some m ∧
          (∃ k rec, db w !! k = Some rec ∧ timestamp rec = m) ∧
          (∀ k rec, db w !! k = Some rec → timestamp rec ≤ m)) ∧
    state_of x = w ∧
    trace_of x = [DbGetAll] ∧
    (∀ cs, outcome_of (getCacheInfo None {| db := db w; caches := cs |}) = outcome_of x).
Proof.
  cbv zeta. unfold getCacheInfo. run_m. simpl.
  set (records := map snd (map_to_list (db w))).
  eexists. split; [reflexivity|]. simpl.
  split; [done|]. split.
  { subst records. by rewrite length_map, length_map_to_list. }
  split; [by rewrite reduce_sum_sizes|].
  split.
  { intros Hempty. subst records. by rewrite Hempty, map_to_list_empty. }
  split; [|done].
  intros Hne. destruct (map timestamp records) as [|t ts] eqn:Hts.
  { exfalso. apply Hne. apply map_to_list_empty_iff.
    subst records. by destruct (map_to_list (db w)). }
  exists (math_max t ts). split; [done|].
  destruct (math_max_spec ts t) as [Hin Hall]. rewrite <- Hts in Hin, Hall.
  split.
  - apply list_elem_of_fmap in Hin as (rec & Hm & Hin).
    apply list_elem_of_fmap in Hin as ([k rec'] & -> & Hin).
    apply elem_of_map_to_list in Hin. by exists k, rec'.
  - intros k rec Hk. rewrite Forall_forall in Hall. apply Hall.
    apply list_elem_of_fmap. exists rec. split; [done|].
    apply list_elem_of_fmap. exists (k, rec). split; [done|].
    by apply elem_of_map_to_list.
Qed.

(** ** When the metadata record is written *)







(** An iteration whose lookup answers that there is no record goes to the
    network. *)
Lemma process_asset_miss sc total asset r :
  sc_lookup sc = None → db (world r) !! a_url asset = None →
  fetches_of (trace_of (process_asset sc total asset r)) = [a_url asset].
Proof.
  intros Hl Hdb. unfold process_asset. run_m. simpl. rewrite Hl. simpl.
  rewrite Hdb. simpl. repeat step_case; trace_simpl; reflexivity.
Qed.




(** ** Drift between the two stores *)

(** C10.  Take an item without a record whose fetch answers with an [ok]
    response and whose [cache.put] completes.  If the body cannot then be
    read to its end, or the metadata write is rejected, the item is reported
    as failed, the Content Cache keeps the response under the identifier,
    and the metadata store has no record for it: the two stores disagree
    after an ordinary per-item failure, without any crash. *)
Theorem C10_drift_from_item_failure sc total asset r response :
  outcome_of (getAssetMeta (sc_lookup sc) (a_url asset) (world r)) = inr None →
  sc_fetch sc = inr response →
  ok response = true →
  sc_cache_open sc = None →
  sc_cache_put sc = None →
  fails_after_cache_put sc response →
  let x := process_asset sc total asset r in
  outcome_of x = inr () ∧
  (∃ msg, results (state_of x) =
          results r ++ [ResError (a_url asset) (a_name asset) msg]) ∧
  caches (world (state_of x)) !! "xr-cache-v1" ≫= (λ c, c !! a_url asset) =
    Some response ∧
  db (world (state_of x)) !! a_url asset = None.
Proof.
  intros Hget Hfetch Hok Hopen Hput Hfail. cbv zeta.
  unfold getAssetMeta in Hget. run_m. simpl in Hget.
  destruct (sc_lookup sc) eqn:Hl; simpl in Hget; [discriminate|].
  injection Hget as Hget. unfold fails_after_cache_put in Hfail.
  unfold process_asset. run_m. simpl.
  rewrite Hl. simpl. rewrite Hget. simpl. rewrite Hfetch. simpl.
  rewrite Hok. simpl. rewrite Hopen. simpl. rewrite Hput. simpl.
  assert (Hcached : ∀ cs : gmap string (gmap string Response),
            <["xr-cache-v1" := <[a_url asset := response]> (default ∅ (cs !! "xr-cache-v1"))]> cs
              !! "xr-cache-v1" ≫= (λ c, c !! a_url asset) = Some response).
  { intros cs. rewrite lookup_insert_eq. simpl. by rewrite lookup_insert_eq. }
  destruct (body response) as [b|]; simpl.
  - rewrite read_body_run. destruct Hfail as [[e He]|[e He]].
    + rewrite He. simpl. split; [done|]. split; [by eexists|]. by split.
    + destruct (read_error b); simpl.
      * split; [done|]. split; [by eexists|]. by split.
      * rewrite He. simpl. split; [done|]. split; [by eexists|]. by split.
  - split; [done|]. split; [by eexists|]. by split.
Qed.

(** C10, witness: [hall] is fetched and cached, then the metadata write is
    rejected. *)
Lemma C10_drift_witness :
  let x := process_asset (save_rejected response_1000) 1 hall
             {| world := empty_world; completed := 0; results := [] |} in
  outcome_of x = inr () ∧
  (∃ msg, results (state_of x) = [] ++ [ResError "/models/hall.glb" "Hall" msg]) ∧
  caches (world (state_of x)) !! "xr-cache-v1" ≫= (λ c, c !! "/models/hall.glb") =
    Some response_1000 ∧
  db (world (state_of x)) !! "/models/hall.glb" = None.
Proof.
  apply (C10_drift_from_item_failure (save_rejected response_1000) 1 hall
           {| world := empty_world; completed := 0; results := [] |} response_1000).
  - reflexivity.
  - reflexivity.
  - reflexivity.
  - reflexivity.
  - reflexivity.
  - right. by eexists.
Defined.

(** * Further properties of the code *)

(** ** Runs of [prefetchAssets]: what is called, fetched and written *)

(** X1.  On an empty request list [prefetchAssets] returns an empty result
    list at once: no callback is invoked, the platform is not called and the
    stores are left as they are. *)
Theorem X1_prefetch_empty_list env w :
  prefetchAssets env [] w = (inr [], w, []).
Proof. by destruct w. Qed.

Lemma completes_of_read_trace u name total len c rl cs f :
  completes_of (read_trace u name total len c rl cs f) = [].
Proof.
  revert rl. induction cs as [|v cs IH]; intros rl; simpl.
  - by destruct f.
  - destruct len; simpl; apply IH.
Qed.

Lemma completes_of_app t1 t2 :
  completes_of (t1 ++ t2) = completes_of t1 ++ completes_of t2.
Proof. apply omap_app. Qed.

Lemma sized_of_app rs1 rs2 : sized_of (rs1 ++ rs2) = sized_of rs1 ++ sized_of rs2.
Proof. apply omap_app. Qed.

(** One iteration: [onFileComplete] is called exactly for an entry with a
    size, and the network is asked at most once, for the item's URL. *)
Lemma process_asset_calls sc total asset r :
  ∃ w' entry,
    state_of (process_asset sc total asset r) =
      {| world := w'; completed := completed r + 1;
         results := results r ++ [entry] |} ∧
    completes_of (trace_of (process_asset sc total asset r)) = sized_of [entry] ∧
    (fetches_of (trace_of (process_asset sc total asset r)) = [] ∨
     fetches_of (trace_of (process_asset sc total asset r)) = [a_url asset]).
Proof.
  iter_cases; do 2 eexists; (split; [reflexivity|]);
    rewrite ?completes_of_app, ?completes_of_read_trace; trace_simpl;
    rewrite ?completes_of_app, ?completes_of_read_trace; simpl; split; eauto.
Qed.

Lemma for_each_asset_calls assetList : ∀ env total i r,
  ∃ w' rs,
    state_of (for_each_asset env total i assetList r) =
      {| world := w'; completed := completed r + Z.of_nat (length assetList);
         results := results r ++ rs |} ∧
    completes_of (trace_of (for_each_asset env total i assetList r)) = sized_of rs ∧
    sublist (fetches_of (trace_of (for_each_asset env total i assetList r)))
            (map a_url assetList).
Proof.
  induction assetList as [|asset rest IH]; intros env total i r.
  - exists (world r), []. simpl. rewrite Z.add_0_r, app_nil_r.
    split; [by destruct r|]. split; [done|]. constructor.
  - rewrite for_each_asset_cons. cbv zeta.
    destruct (process_asset_entry (env i) total asset r) as (? & ? & Ho & _).
    rewrite Ho.
    destruct (process_asset_calls (env i) total asset r)
      as (w1 & entry & Hs & Hc & Hf).
    rewrite Hs.
    destruct (IH env total (S i)
                {| world := w1; completed := completed r + 1;
                   results := results r ++ [entry] |})
      as (w2 & rs & Hs2 & Hc2 & Hf2).
    exists w2, (entry :: rs). unfold state_of, trace_of in *. simpl in *.
    rewrite Hs2, completes_of_app, fetches_of_app, Hc, Hc2.
    rewrite <- app_assoc. simpl. split; [f_equal; lia|]. split.
    + by destruct entry.
    + destruct Hf as [->| ->]; simpl.
      * by apply sublist_cons.
      * by apply sublist_skip.
Qed.

(** X2.  In a run, [onFileComplete] is invoked exactly for the entries that
    carry a size, in order and with the size of the entry, and [onFileError]
    exactly for the entries that carry an error: every request gets one of
    the two, once. *)
Theorem X2_one_terminal_callback_per_item env assetList w :
  ∃ rs,
    outcome_of (prefetchAssets env assetList w) = inr rs ∧
    completes_of (trace_of (prefetchAssets env assetList w)) = sized_of rs ∧
    errors_of (trace_of (prefetchAssets env assetList w)) = failed_of rs ∧
    (length (completes_of (trace_of (prefetchAssets env assetList w))) +
     length (errors_of (trace_of (prefetchAssets env assetList w))))%nat =
      length assetList.
Proof.
  rewrite prefetchAssets_run. cbv zeta.
  destruct (for_each_asset_entries assetList env (Z.of_nat (length assetList)) 0%nat
              {| world := w; completed := 0; results := [] |})
    as (w0 & rs & Ho & Hs & Hk & _ & Herr).
  destruct (for_each_asset_calls assetList env (Z.of_nat (length assetList)) 0%nat
              {| world := w; completed := 0; results := [] |})
    as (w' & rs' & Hs' & Hc & _).
  unfold outcome_of, state_of, trace_of in *. simpl in *.
  rewrite Hs in Hs'. injection Hs' as _ <-.
  exists rs. rewrite Ho, Hs. simpl. split; [done|]. split; [done|]. split; [done|].
  rewrite Hc, Herr.
  apply (f_equal length) in Hk. rewrite !length_map in Hk. rewrite <- Hk. clear.
  induction rs as [|[] rs IH]; simpl; [done|lia|lia].
Qed.

(** X3.  A run asks the network only for requested URLs, at most once per
    request and in request order: the fetches of the run are a sublist of
    the URLs of the request list.  Nothing is retried. *)
Theorem X3_fetches_only_requested env assetList w :
  sublist (fetches_of (trace_of (prefetchAssets env assetList w)))
          (map a_url assetList).
Proof.
  rewrite prefetchAssets_run. cbv zeta.
  destruct (for_each_asset_calls assetList env (Z.of_nat (length assetList)) 0%nat
              {| world := w; completed := 0; results := [] |})
    as (w' & rs' & _ & _ & Hf).
  exact Hf.
Qed.

Lemma read_trace_events (assetList : list Asset) u name total len c cs f : ∀ rl,
  u ∈ map a_url assetList → name ∈ map a_name assetList →
  total = Z.of_nat (length assetList) →
  Forall (event_of_list assetList) (read_trace u name total len c rl cs f).
Proof.
  intros rl Hu Hn Ht. revert rl.
  induction cs as [|v cs IH]; intros rl; simpl.
  - destruct f; repeat constructor; done.
  - constructor; [done|]. destruct len; simpl; [constructor; [done|]|]; apply IH.
Qed.

Lemma process_asset_events (assetList : list Asset) sc total asset r :
  asset ∈ assetList → total = Z.of_nat (length assetList) →
  Forall (event_of_list assetList) (trace_of (process_asset sc total asset r)).
Proof.
  intros Hin Ht.
  assert (Hk : (a_url asset, a_name asset) ∈ map (λ a, (a_url a, a_name a)) assetList)
    by (apply list_elem_of_fmap; eauto).
  assert (Hu : a_url asset ∈ map a_url assetList)
    by (apply list_elem_of_fmap; eauto).
  assert (Hn : a_name asset ∈ map a_name assetList)
    by (apply list_elem_of_fmap; eauto).
  iter_cases;
    repeat first
      [ apply Forall_nil_2
      | apply Forall_cons; split; [by simpl|]
      | apply read_trace_events; assumption
      | apply Forall_app; split ].
Qed.

Lemma for_each_asset_events (assetList : list Asset) rest : ∀ env total i r,
  (∀ a, a ∈ rest → a ∈ assetList) → total = Z.of_nat (length assetList) →
  Forall (event_of_list assetList) (trace_of (for_each_asset env total i rest r)).
Proof.
  induction rest as [|asset rest IH]; intros env total i r Hsub Ht.
  - constructor.
  - rewrite for_each_asset_cons. cbv zeta.
    destruct (process_asset_entry (env i) total asset r) as (? & ? & Ho & _).
    rewrite Ho. unfold trace_of at 1. simpl. apply Forall_app. split.
    + apply process_asset_events; [|done]. apply Hsub, elem_of_cons. by left.
    + apply IH; [|done]. intros a Ha. apply Hsub, elem_of_cons. by right.
Qed.

(** X4.  Every event of a run concerns a requested item: the callbacks name
    the URL and display name of a request of the list, every [onProgress]
    call carries the number of requests as its total (so the total is never
    0 in a call), every platform call is for a requested URL, and the run
    never lists or deletes caches and never reads all or clears the
    metadata store. *)
Theorem X4_events_concern_requests env assetList w :
  Forall (event_of_list assetList) (trace_of (prefetchAssets env assetList w)).
Proof.
  rewrite prefetchAssets_run. cbv zeta. unfold trace_of at 1. simpl.
  by apply for_each_asset_events.
Qed.

(** ** What a run changes in the stores *)

Lemma process_asset_frame sc total asset r :
  ∃ w' entry,
    state_of (process_asset sc total asset r) =
      {| world := w'; completed := completed r + 1;
         results := results r ++ [entry] |} ∧
    (∀ k rec, db w' !! k = Some rec →
              db (world r) !! k = Some rec ∨ k = a_url asset) ∧
    (∀ n, n ≠ "xr-cache-v1" → caches w' !! n = caches (world r) !! n) ∧
    (∀ k, k ≠ a_url asset → cached_response w' k = cached_response (world r) k).
Proof.
  unfold cached_response.
  iter_cases; do 2 eexists; (split; [reflexivity|]); simpl;
    repeat split; intros; eauto;
    try (destruct (caches (world r) !! "xr-cache-v1") eqn:Hc; simpl;
         rewrite ?lookup_insert_eq, ?Hc; simpl; try done);
    try (rewrite !lookup_insert_ne by done; try done).
  all: try (destruct (decide (k = a_url asset)) as [->|Hne];
            [by right | left; by rewrite lookup_insert_ne in H by done]).
  all: try by rewrite lookup_insert_ne.
Qed.

Lemma for_each_asset_frame assetList : ∀ env total i r,
  ∃ w' rs,
    state_of (for_each_asset env total i assetList r) =
      {| world := w'; completed := completed r + Z.of_nat (length assetList);
         results := results r ++ rs |} ∧
    (∀ k rec, db w' !! k = Some rec →
              db (world r) !! k = Some rec ∨ k ∈ map a_url assetList) ∧
    (∀ n, n ≠ "xr-cache-v1" → caches w' !! n = caches (world r) !! n) ∧
    (∀ k, k ∉ map a_url assetList →
          cached_response w' k = cached_response (world r) k).
Proof.
  induction assetList as [|asset rest IH]; intros env total i r.
  - exists (world r), []. simpl. rewrite Z.add_0_r, app_nil_r.
    split; [by destruct r|]. repeat split; eauto.
  - rewrite for_each_asset_cons. cbv zeta.
    destruct (process_asset_entry (env i) total asset r) as (? & ? & Ho & _).
    rewrite Ho.
    destruct (process_asset_frame (env i) total asset r)
      as (w1 & entry & Hs & Hdb & Hcs & Hcr).
    rewrite Hs.
    destruct (IH env total (S i)
                {| world := w1; completed := completed r + 1;
                   results := results r ++ [entry] |})
      as (w2 & rs & Hs2 & Hdb2 & Hcs2 & Hcr2).
    exists w2, (entry :: rs). unfold state_of in *. simpl in *. rewrite Hs2.
    rewrite <- app_assoc. simpl. split; [f_equal; lia|]. repeat split.
    + intros k rec Hk. apply Hdb2 in Hk as [Hk|Hk].
      * apply Hdb in Hk as [Hk| ->]; [by left|]. right. apply elem_of_cons. by left.
      * right. apply elem_of_cons. by right.
    + intros n Hn. by rewrite Hcs2, Hcs.
    + intros k Hk. apply not_elem_of_cons in Hk as [Hne Hk].
      by rewrite Hcr2, Hcr.
Qed.

(** X5.  A run only adds to the stores.  Every metadata record present
    before the run is still there, unchanged, after it; a record present
    after the run was there before or belongs to a requested URL.  In Cache
    Storage only the cache [xr-cache-v1] is written, and in it only the
    entries of requested URLs. *)
Theorem X5_run_only_adds_requested env assetList w :
  let w' := state_of (prefetchAssets env assetList w) in
  (∀ k rec, db w !! k = Some rec → db w' !! k = Some rec) ∧
  (∀ k rec, db w' !! k = Some rec →
            db w !! k = Some rec ∨ k ∈ map a_url assetList) ∧
  (∀ n, n ≠ "xr-cache-v1" → caches w' !! n = caches w !! n) ∧
  (∀ k, k ∉ map a_url assetList → cached_response w' k = cached_response w k).
Proof.
  cbv zeta. rewrite prefetchAssets_run. cbv zeta.
  set (r0 := {| world := w; completed := 0; results := [] |}).
  destruct (for_each_asset_store assetList env (Z.of_nat (length assetList)) 0%nat r0)
    as (w1 & rs1 & Hs1 & Hkeep & _).
  destruct (for_each_asset_frame assetList env (Z.of_nat (length assetList)) 0%nat r0)
    as (w2 & rs2 & Hs2 & Hnew & Hcs & Hcr).
  unfold state_of in *. simpl in *. rewrite Hs1 in Hs2. injection Hs2 as <- _.
  rewrite Hs1. simpl. repeat split; eauto.
Qed.

(** ** A download that completes *)

(** X6.  When the download of an item without record completes, the size
    written to the metadata store, reported to [onFileComplete] and returned
    in the entry is the number of bytes the body stream delivered, whatever
    length the response declared.  The record carries the response's
    [content-type], [etag] and [last-modified] headers and the time of the
    write, the response is in the cache [xr-cache-v1] under the URL, and a
    lookup of the URL now answers with the record. *)
Theorem X6_download_records_received_bytes sc total asset r response b :
  db (world r) !! a_url asset = None →
  completes_with sc response b →
  let x := process_asset sc total asset r in
  let u := a_url asset in
  results (state_of x) =
    results r ++ [ResSize u (a_name asset) false (bytes_of (chunks b))] ∧
  completes_of (trace_of x) = [(u, a_name asset, bytes_of (chunks b))] ∧
  db (world (state_of x)) = <[u := record_of sc u response b]> (db (world r)) ∧
  cached_response (world (state_of x)) u = Some response ∧
  outcome_of (getAssetMeta None u (world (state_of x))) =
    inr (Some (record_of sc u response b)).
Proof.
  intros Hdb (Hl & Hf & Hok & Hopen & Hput & Hb & Herr & Hsave). cbv zeta.
  unfold cached_response, record_of.
  unfold process_asset. run_m. simpl.
  rewrite Hl. simpl. rewrite Hdb. simpl. rewrite Hf. simpl. rewrite Hok. simpl.
  rewrite Hopen. simpl. rewrite Hput. simpl. rewrite Hb. simpl.
  rewrite read_body_run, Herr. simpl. rewrite Hsave. simpl.
  rewrite completes_of_app, completes_of_read_trace. simpl.
  rewrite !lookup_insert_eq. simpl. rewrite lookup_insert_eq.
  by repeat split.
Qed.

(** X6, witness: [hall] is downloaded into empty stores. *)
Lemma X6_download_witness :
  let x := process_asset (answers response_1000) 1 hall
             {| world := empty_world; completed := 0; results := [] |} in
  results (state_of x) = [] ++ [ResSize "/models/hall.glb" "Hall" false 1000] ∧
  completes_of (trace_of x) = [("/models/hall.glb", "Hall", 1000)] ∧
  db (world (state_of x)) =
    <["/models/hall.glb" :=
        record_of (answers response_1000) "/models/hall.glb" response_1000
          {| chunks := [chunk250; chunk250; chunk250; chunk250]; read_error := None |}]> ∅ ∧
  cached_response (world (state_of x)) "/models/hall.glb" = Some response_1000 ∧
  outcome_of (getAssetMeta None "/models/hall.glb" (world (state_of x))) =
    inr (Some (record_of (answers response_1000) "/models/hall.glb" response_1000
                 {| chunks := [chunk250; chunk250; chunk250; chunk250];
                    read_error := None |})).
Proof.
  apply (X6_download_records_received_bytes (answers response_1000) 1 hall
           {| world := empty_world; completed := 0; results := [] |} response_1000
           {| chunks := [chunk250; chunk250; chunk250; chunk250]; read_error := None |}).
  - reflexivity.
  - by repeat split.
Defined.

(** X7.  When the response of an item declares no usable content length
    (no [content-length] header, an empty or non-numeric one, or one that is
    not positive), or when no response arrives, [onProgress] is invoked
    exactly once for the item, with the count at the start of the item
    plus 1: there is no fractional progress. *)
Theorem X7_no_declared_length_single_progress sc total asset r :
  (∀ response, sc_fetch sc = inr response → declared_length response = None) →
  progress_values (trace_of (process_asset sc total asset r)) =
    [inject_Z (completed r + 1)].
Proof.
  intros Hnone. unfold declared_length in Hnone.
  iter_cases; rewrite ?progress_values_app; simpl; try reflexivity.
  all: rewrite (Hnone _ eq_refl), read_trace_progress_none; reflexivity.
Qed.

(** X7, witness: a chunked response without [content-length]. *)
Lemma X7_no_declared_length_witness :
  progress_values
    (trace_of (process_asset (answers response_chunked) 3 plan
                 {| world := hall_cached; completed := 1; results := [] |})) =
    [inject_Z (1 + 1)].
Proof.
  apply (X7_no_declared_length_single_progress (answers response_chunked) 3 plan
           {| world := hall_cached; completed := 1; results := [] |}).
  intros response [= <-]. reflexivity.
Defined.

Lemma declared_length_none response :
  match headers_get response "content-length" with
  | None | Some "" => True
  | Some text =>
      match parseInt10 text with
      | None => True
      | Some n => n ≤ 0
      end
  end →
  declared_length response = None.
Proof.
  unfold declared_length, positive_length, or_zero_string.
  destruct (headers_get response "content-length") as [[|c text]|]; try done.
  destruct (parseInt10 (String c text)) as [n|]; [|done].
  intros Hn. destruct (0 <? n) eqn:H; [lia|done].
Qed.

(** ** The same URL twice in one request list *)

Lemma for_each_asset_app l1 : ∀ l2 env total i r,
  for_each_asset env total i (l1 ++ l2) r =
  let x := for_each_asset env total i l1 r in
  let y := for_each_asset env total (i + length l1)%nat l2 (state_of x) in
  (outcome_of y, state_of y, trace_of x ++ trace_of y).
Proof.
  induction l1 as [|a l1 IH]; intros l2 env total i r; cbv zeta.
  - simpl. rewrite Nat.add_0_r. unfold outcome_of, state_of, trace_of. simpl.
    by destruct (for_each_asset env total i l2 r) as [[o s] t].
  - rewrite <- app_comm_cons, !for_each_asset_cons. cbv zeta.
    destruct (process_asset_entry (env i) total a r) as (? & ? & Ho & _).
    rewrite Ho, IH. cbv zeta. unfold outcome_of, state_of, trace_of. simpl.
    rewrite app_assoc. repeat f_equal; lia.
Qed.

(** From a store that has a record for [u], every later item with that URL
    whose lookup answers is a hit on that record. *)
Lemma for_each_asset_hits rest : ∀ env total i r u rec,
  db (world r) !! u = Some rec →
  ∃ w' rs,
    state_of (for_each_asset env total i rest r) =
      {| world := w'; completed := completed r + Z.of_nat (length rest);
         results := results r ++ rs |} ∧
    length rs = length rest ∧
    ∀ j b, rest !! j = Some b → a_url b = u →
           sc_lookup (env (i + j)%nat) = None →
           rs !! j = Some (ResSize (a_url b) (a_name b) true (size rec)).
Proof.
  induction rest as [|asset rest IH]; intros env total i r u rec Hrec.
  - exists (world r), []. simpl. rewrite Z.add_0_r, app_nil_r.
    split; [by destruct r|]. split; [done|]. intros j b Hj. done.
  - rewrite for_each_asset_cons. cbv zeta.
    destruct (process_asset_entry (env i) total asset r) as (? & ? & Ho & _).
    rewrite Ho.
    destruct (process_asset_store (env i) total asset r)
      as (w1 & entry & Hs & Hkeep & _).
    rewrite Hs.
    destruct (IH env total (S i)
                {| world := w1; completed := completed r + 1;
                   results := results r ++ [entry] |} u rec (Hkeep _ _ Hrec))
      as (w2 & rs & Hs2 & Hlen & Hhits).
    exists w2, (entry :: rs). unfold state_of in *. simpl in *. rewrite Hs2.
    rewrite <- app_assoc. simpl. split; [f_equal; lia|]. split; [by rewrite Hlen|].
    intros [|j] b Hj Hu Hl; simpl in *.
    + injection Hj as <-. rewrite Nat.add_0_r in Hl. subst u.
      destruct (process_asset_recorded (env i) total asset r rec Hrec)
        as (entry' & Hs' & _ & Hhit).
      unfold state_of in Hs'. rewrite Hs in Hs'. injection Hs' as _ Heq.
      apply app_inv_head in Heq. injection Heq as ->. by rewrite Hhit.
    + apply Hhits; [done..|]. by rewrite Nat.add_succ_r in Hl.
Qed.

Lemma for_each_asset_after_first env total i a rest r :
  ∃ w' ea rs,
    state_of (for_each_asset env total i (a :: rest) r) =
      {| world := w'; completed := completed r + Z.of_nat (length (a :: rest));
         results := results r ++ ea :: rs |} ∧
    length rs = length rest ∧
    ∀ u n c s, ea = ResSize u n c s →
      ∀ j b, rest !! j = Some b → a_url b = a_url a →
             sc_lookup (env (S i + j)%nat) = None →
             rs !! j = Some (ResSize (a_url b) (a_name b) true s).
Proof.
  rewrite for_each_asset_cons. cbv zeta.
  destruct (process_asset_entry (env i) total a r) as (? & ? & Ho & _).
  rewrite Ho.
  destruct (process_asset_store (env i) total a r)
    as (w1 & ea & Hs & _ & (_ & _ & Hrec)).
  rewrite Hs.
  destruct ea as [u n c s|u n m].
  - destruct Hrec as (rec & Hrec & Hsz).
    destruct (for_each_asset_hits rest env total (S i)
                {| world := w1; completed := completed r + 1;
                   results := results r ++ [ResSize u n c s] |} (a_url a) rec Hrec)
      as (w2 & rs & Hs2 & Hlen & Hhits).
    exists w2, (ResSize u n c s), rs. unfold state_of in *. simpl in *.
    rewrite Hs2, <- app_assoc. simpl. split; [f_equal; lia|]. split; [done|].
    intros ? ? ? ? [= -> -> -> ->] j b Hj Hu Hl. rewrite <- Hsz. by apply Hhits.
  - destruct (for_each_asset_entries rest env total (S i)
                {| world := w1; completed := completed r + 1;
                   results := results r ++ [ResError u n m] |})
      as (w2 & rs & _ & Hs2 & Hk & _).
    exists w2, (ResError u n m), rs. unfold state_of in *. simpl in *.
    rewrite Hs2, <- app_assoc. simpl. split; [f_equal; lia|]. split.
    + apply (f_equal length) in Hk. by rewrite !length_map in Hk.
    + discriminate.
Qed.

(** X8.  When a URL occurs twice in a request list and the first occurrence
    ends with an entry that carries a size (it was downloaded, or found in
    the store), the second occurrence, once its lookup answers, is reported
    as a cache hit with that same size, whatever happened to the items in
    between. *)
Theorem X8_second_occurrence_is_hit env l1 a l2 b l3 w rs c s :
  a_url b = a_url a →
  sc_lookup (env (length l1 + 1 + length l2)%nat) = None →
  outcome_of (prefetchAssets env (l1 ++ a :: l2 ++ b :: l3) w) = inr rs →
  rs !! length l1 = Some (ResSize (a_url a) (a_name a) c s) →
  rs !! (length l1 + 1 + length l2)%nat =
    Some (ResSize (a_url b) (a_name b) true s).
Proof.
  intros Hurl Hlook Hrun Ha.
  rewrite prefetchAssets_run in Hrun. cbv zeta in Hrun.
  set (total := Z.of_nat (length (l1 ++ a :: l2 ++ b :: l3))) in *.
  set (r0 := {| world := w; completed := 0; results := [] |}) in *.
  destruct (for_each_asset_entries (l1 ++ a :: l2 ++ b :: l3) env total 0%nat r0)
    as (? & ? & Ho & _).
  rewrite Ho in Hrun. injection Hrun as <-. clear Ho.
  rewrite for_each_asset_app in Ha |- *. cbv zeta in Ha |- *.
  rewrite Nat.add_0_l in Ha |- *.
  unfold state_of at 1. unfold state_of at 1 in Ha. cbn [fst snd] in Ha |- *.
  destruct (for_each_asset_entries l1 env total 0%nat r0)
    as (w1 & rs1 & _ & Hs1 & Hk1 & _).
  apply (f_equal length) in Hk1. rewrite !length_map in Hk1.
  rewrite Hs1 in Ha |- *.
  destruct (for_each_asset_after_first env total (length l1) a (l2 ++ b :: l3)
              {| world := w1; completed := completed r0 + Z.of_nat (length l1);
                 results := results r0 ++ rs1 |})
    as (w2 & ea & rs2 & Hs2 & Hlen & Hhits).
  rewrite Hs2 in Ha |- *. subst r0. cbn [results app] in Ha |- *.
  rewrite lookup_app_r in Ha by lia. rewrite Hk1, Nat.sub_diag in Ha.
  simpl in Ha. injection Ha as ->.
  rewrite lookup_app_r by lia. rewrite Hk1.
  replace (length l1 + 1 + length l2 - length l1)%nat with (S (length l2)) by lia.
  simpl. eapply Hhits; [done| |done|].
  - rewrite lookup_app_r by lia. by rewrite Nat.sub_diag.
  - rewrite <- Hlook. do 2 f_equal. lia.
Qed.

(** X8, witness: [hall], [plan], then [hall] again. *)
Lemma X8_second_occurrence_witness :
  ∃ rs,
    outcome_of (prefetchAssets (λ _, answers response_1000) [hall; plan; hall] empty_world)
      = inr rs ∧
    rs !! 2%nat = Some (ResSize "/models/hall.glb" "Hall" true 1000).
Proof.
  eexists. split; [by vm_compute|].
  apply (X8_second_occurrence_is_hit (λ _, answers response_1000)
           [] hall [plan] hall [] empty_world _ false 1000); reflexivity.
Defined.

(** ** [getCacheInfo] after a run *)

Lemma sum_sizes_perm (l1 l2 : list AssetMeta) :
  l1 ≡ₚ l2 → sum_sizes l1 = sum_sizes l2.
Proof. induction 1; simpl; lia. Qed.

Lemma sum_sizes_insert (m : gmap string AssetMeta) u rec :
  m !! u = None →
  sum_sizes (map snd (map_to_list (<[u := rec]> m))) =
  size rec + sum_sizes (map snd (map_to_list m)).
Proof.
  intros Hu.
  rewrite (sum_sizes_perm _ (map snd ((u, rec) :: map_to_list m))); [done|].
  apply fmap_Permutation. by apply map_to_list_insert.
Qed.

Lemma getCacheInfo_totals w :
  ∃ info,
    outcome_of (getCacheInfo None w) = inr (Some info) ∧
    files info = Z.of_nat (base.size (db w)) ∧
    totalSize info = sum_sizes (map snd (map_to_list (db w))).
Proof.
  unfold getCacheInfo. run_m. simpl. eexists. split; [reflexivity|]. simpl.
  split; [by rewrite length_map, length_map_to_list | by rewrite reduce_sum_sizes].
Qed.

(** An iteration adds a record exactly when its entry is a download, and the
    record is new and has the entry's size. *)
Lemma process_asset_adds sc total asset r :
  ∃ w' entry,
    state_of (process_asset sc total asset r) =
      {| world := w'; completed := completed r + 1;
         results := results r ++ [entry] |} ∧
    match entry with
    | ResSize _ _ false s =>
        ∃ rec, db (world r) !! a_url asset = None ∧
               db w' = <[a_url asset := rec]> (db (world r)) ∧ size rec = s
    | _ => db w' = db (world r)
    end.
Proof.
  iter_cases; do 2 eexists; (split; [reflexivity|]); simpl; eauto.
Qed.

Lemma for_each_asset_adds assetList : ∀ env total i r,
  ∃ w' rs,
    state_of (for_each_asset env total i assetList r) =
      {| world := w'; completed := completed r + Z.of_nat (length assetList);
         results := results r ++ rs |} ∧
    base.size (db w') = (base.size (db (world r)) + length (downloaded_sizes rs))%nat ∧
    sum_sizes (map snd (map_to_list (db w'))) =
      sum_sizes (map snd (map_to_list (db (world r)))) + foldr Z.add 0 (downloaded_sizes rs).
Proof.
  induction assetList as [|asset rest IH]; intros env total i r.
  - exists (world r), []. simpl. rewrite Z.add_0_r, app_nil_r.
    split; [by destruct r|]. split; lia.
  - rewrite for_each_asset_cons. cbv zeta.
    destruct (process_asset_entry (env i) total asset r) as (? & ? & Ho & _).
    rewrite Ho.
    destruct (process_asset_adds (env i) total asset r) as (w1 & entry & Hs & Hadd).
    rewrite Hs.
    destruct (IH env total (S i)
                {| world := w1; completed := completed r + 1;
                   results := results r ++ [entry] |})
      as (w2 & rs & Hs2 & Hn & Hb).
    exists w2, (entry :: rs). unfold state_of in *. simpl in *. rewrite Hs2.
    rewrite <- app_assoc. simpl. split; [f_equal; lia|].
    rewrite Hn, Hb.
    destruct entry as [u n [] s|u n m]; simpl.
    + rewrite Hadd. split; lia.
    + destruct Hadd as (rec & Hnone & -> & <-).
      rewrite map_size_insert_None by done. rewrite sum_sizes_insert by done.
      split; lia.
    + rewrite Hadd. split; lia.
Qed.

(** X9.  [getCacheInfo] follows what a run downloads: after the run its file
    count is the count before the run plus the number of entries downloaded
    in the run, and its total size is the total before plus the sizes of
    those entries.  Cache hits and failed items change neither. *)
Theorem X9_cache_info_tracks_downloads env assetList w :
  ∃ rs before after,
    outcome_of (prefetchAssets env assetList w) = inr rs ∧
    outcome_of (getCacheInfo None w) = inr (Some before) ∧
    outcome_of (getCacheInfo None (state_of (prefetchAssets env assetList w))) =
      inr (Some after) ∧
    files after = files before + Z.of_nat (length (downloaded_sizes rs)) ∧
    totalSize after = totalSize before + foldr Z.add 0 (downloaded_sizes rs).
Proof.
  rewrite prefetchAssets_run. cbv zeta.
  set (r0 := {| world := w; completed := 0; results := [] |}).
  destruct (for_each_asset_entries assetList env (Z.of_nat (length assetList)) 0%nat r0)
    as (w0 & rs & Ho & Hs & _).
  destruct (for_each_asset_adds assetList env (Z.of_nat (length assetList)) 0%nat r0)
    as (w' & rs' & Hs' & Hn & Hb).
  rewrite Hs in Hs'. injection Hs' as <- <-.
  destruct (getCacheInfo_totals w) as (before & Hbefore & Hf0 & Ht0).
  destruct (getCacheInfo_totals w0) as (after & Hafter & Hf1 & Ht1).
  exists rs, before, after. rewrite Ho, Hs.
  split; [done|]. split; [done|]. split; [exact Hafter|].
  rewrite Hf1, Hf0, Ht1, Ht0, Hn, Hb. simpl. split; lia.
Qed.

(** ** [clearAllCaches]: what its result tells *)

(** The page's own deletions, whatever each [caches.delete] answers: the
    metadata store is not touched, a cache is deleted or kept as it is, only
    [xr-cache-] caches are deleted, and when no deletion is rejected all the
    listed [xr-cache-] caches are gone. *)
Lemma promise_all_deletes_any sc names : ∀ w,
  let x := promise_all (omap (delete_if_ours sc) names) w in
  db (state_of x) = db w ∧
  (∀ k, caches (state_of x) !! k = None ∨ caches (state_of x) !! k = caches w !! k) ∧
  (∀ k, String.prefix "xr-cache-" k = false →
        caches (state_of x) !! k = caches w !! k) ∧
  (outcome_of x = inr () →
   ∀ k, k ∈ names → String.prefix "xr-cache-" k = true →
        caches (state_of x) !! k = None).
Proof.
  induction names as [|n names IH]; intros w; cbv zeta.
  - simpl. repeat split; eauto. intros _ k Hk. by apply elem_of_nil in Hk.
  - assert (Hstep : omap (delete_if_ours sc) (n :: names) =
                    match delete_if_ours sc n with
                    | Some job => job :: omap (delete_if_ours sc) names
                    | None => omap (delete_if_ours sc) names
                    end) by reflexivity.
    rewrite Hstep. clear Hstep.
    destruct (delete_if_ours sc n) as [job|] eqn:Hjob;
      unfold delete_if_ours in Hjob;
      destruct (String.prefix "xr-cache-" n) eqn:Hp; simplify_eq.
    + destruct (cl_delete sc n) as [e|] eqn:Hdel; simpl; run_m; simpl.
      * destruct (IH w) as (Hdb & Hkeep & Hother & _).
        unfold outcome_of, state_of in *.
        destruct (promise_all _ _) as [[o s] t]. simpl in *.
        repeat split; try done.
      * destruct (IH (set_caches (delete n) w)) as (Hdb & Hkeep & Hother & Hgone).
        unfold outcome_of, state_of in *.
        destruct (promise_all _ _) as [[o s] t]. simpl in *.
        split; [done|]. split; [|split].
        -- intros k. destruct (Hkeep k) as [Hk|Hk]; [by left|].
           rewrite Hk. destruct (decide (k = n)) as [->|Hne].
           ++ left. by rewrite lookup_delete_eq.
           ++ right. by rewrite lookup_delete_ne.
        -- intros k Hk. rewrite Hother by done.
           rewrite lookup_delete_ne; [done|]. intros ->. congruence.
        -- intros Ho k Hk Hpk. apply elem_of_cons in Hk as [->|Hk].
           ++ destruct (Hkeep n) as [Hn|Hn]; [done|].
              by rewrite Hn, lookup_delete_eq.
           ++ by apply Hgone.
    + destruct (IH w) as (Hdb & Hkeep & Hother & Hgone).
      repeat split; try done.
      intros Ho k Hk Hpk. apply elem_of_cons in Hk as [->|Hk]; [congruence|].
      by apply Hgone.
Qed.

Lemma clearAllCaches_run sc w :
  let w1 := state_of (sw_clear (cl_sw sc) w) in
  let x := clearAllCaches sc w in
  ∃ b, outcome_of x = inr b ∧
       (b = true →
        db (state_of x) = ∅ ∧
        ∀ n, String.prefix "xr-cache-" n = true → caches (state_of x) !! n = None) ∧
       (b = false → db (state_of x) = db w) ∧
       (∀ n, caches (state_of x) !! n = None ∨
             caches (state_of x) !! n = caches w1 !! n) ∧
       (∀ n, String.prefix "xr-cache-" n = false →
             caches (state_of x) !! n = caches w1 !! n).
Proof.
  cbv zeta. unfold clearAllCaches.
  destruct (cl_sw sc) as [|e|reply_ok deleted] eqn:Hsw; unfold sw_clear.
  2: { exists false. run_m. simpl.
       split; [done|]. split; [discriminate|]. split; [done|]. split; eauto. }
  all: unfold caches_keys, clearAssetMeta; run_m; simpl.
  all: destruct (cl_keys sc) as [e|]; simpl;
    [exists false; split; [done|]; split; [discriminate|]; split; [done|];
     split; eauto|].
  all: match goal with
       | |- context [promise_all ?ms ?w0] =>
           pose proof (promise_all_deletes_any sc
                         (map fst (map_to_list (caches w0))) w0)
             as (Hdb & Hkeep & Hother & Hgone)
       end.
  all: unfold outcome_of, state_of in *.
  all: destruct (promise_all _ _) as [[[e|[]] s] t]; simpl in *;
    [exists false; split; [done|]; split; [discriminate|]; split; [done|];
     split; eauto|].
  all: destruct (cl_db sc) as [e|]; simpl;
    [exists false; split; [done|]; split; [discriminate|]; split; [done|];
     split; eauto|].
  all: exists true; split; [done|]; split; [|split; [discriminate|split; eauto]].
  all: intros _; split; [done|].
  all: intros n Hn; destruct (caches s !! n) as [c|] eqn:Hc; [|done].
  all: destruct (Hkeep n) as [Hk|Hk]; [congruence|].
  all: rewrite <- Hc; apply (Hgone eq_refl n); [|done].
  all: apply list_elem_of_fmap; exists (n, c); split; [done|].
  all: apply elem_of_map_to_list; congruence.
Qed.

(** X10.  [clearAllCaches] never throws, and its boolean tells whether the
    metadata store was cleared.  When it returns [true], the metadata store
    is empty and no cache whose name starts with [xr-cache-] is left.  When
    it returns [false], the metadata store holds exactly what it held
    before, even if some caches have already been deleted. *)
Theorem X10_clear_all_result sc w :
  ∃ b,
    outcome_of (clearAllCaches sc w) = inr b ∧
    (b = true →
     db (state_of (clearAllCaches sc w)) = ∅ ∧
     ∀ n, String.prefix "xr-cache-" n = true →
          caches (state_of (clearAllCaches sc w)) !! n = None) ∧
    (b = false → db (state_of (clearAllCaches sc w)) = db w).
Proof.
  destruct (clearAllCaches_run sc w) as (b & Ho & Ht & Hf & _).
  exists b. split; [exact Ho|]. split; [exact Ht|exact Hf].
Qed.

(** X11.  [clearAllCaches] only deletes: every cache is afterwards gone or
    exactly as it was.  A cache whose name does not start with [xr-cache-]
    and that the worker did not delete is kept as it was, whether the
    operation succeeds or fails. *)
Theorem X11_clear_all_keeps_foreign_caches sc w n :
  let x := clearAllCaches sc w in
  (caches (state_of x) !! n = None ∨ caches (state_of x) !! n = caches w !! n) ∧
  (String.prefix "xr-cache-" n = false →
   match cl_sw sc with SwReplies _ deleted => n ∉ deleted | _ => True end →
   caches (state_of x) !! n = caches w !! n).
Proof.
  cbv zeta.
  destruct (clearAllCaches_run sc w) as (b & _ & _ & _ & Hkeep & Hother).
  assert (Hw1 : caches (state_of (sw_clear (cl_sw sc) w)) !! n = None ∨
                caches (state_of (sw_clear (cl_sw sc) w)) !! n = caches w !! n).
  { destruct (cl_sw sc) as [|e|reply_ok deleted]; simpl; run_m; simpl; eauto.
    destruct (decide (n ∈ deleted)).
    - left. by apply lookup_foldr_delete.
    - right. by apply lookup_foldr_delete_not_elem_of. }
  split.
  - destruct (Hkeep n) as [Hk|Hk]; [by left|]. rewrite Hk. exact Hw1.
  - intros Hp Hsw. rewrite Hother by done.
    destruct (cl_sw sc) as [|e|reply_ok deleted]; simpl; run_m; simpl; try done.
    by apply lookup_foldr_delete_not_elem_of.
Qed.

(** X11, witness: a cache of another application survives a successful
    clear. *)
Lemma X11_clear_all_foreign_witness :
  let w := {| db := ∅;
              caches := {[ "xr-cache-v1" := ∅; "other-app" := ∅ ]} |} in
  let x := clearAllCaches worker_reports_failure w in
  (caches (state_of x) !! "other-app" = None ∨
   caches (state_of x) !! "other-app" = caches w !! "other-app") ∧
  caches (state_of x) !! "other-app" = caches w !! "other-app".
Proof.
  cbv zeta.
  destruct (X11_clear_all_keeps_foreign_caches worker_reports_failure
              {| db := ∅; caches := {[ "xr-cache-v1" := ∅; "other-app" := ∅ ]} |}
              "other-app") as [H1 H2].
  split; [exact H1|]. apply H2; [reflexivity|]. simpl. apply not_elem_of_nil.
Defined.

(** X12.  After [clearAllCaches] has returned [true], [getCacheInfo] reports
    no file, size 0 and no latest update, and an iteration of
    [prefetchAssets] for any item, once its lookup answers, goes to the
    network: what was cached before is downloaded again. *)
Theorem X12_clear_all_then_empty sc w :
  outcome_of (clearAllCaches sc w) = inr true →
  let w' := state_of (clearAllCaches sc w) in
  outcome_of (getCacheInfo None w') =
    inr (Some {| version := "xr-cache-v1"; files := 0; totalSize := 0;
                 latestUpdate := None; assets := [] |}) ∧
  ∀ sc' total asset r,
    world r = w' → sc_lookup sc' = None →
    fetches_of (trace_of (process_asset sc' total asset r)) = [a_url asset].
Proof.
  intros Htrue. cbv zeta.
  destruct (clearAllCaches_run sc w) as (b & Ho & Ht & _).
  rewrite Htrue in Ho. injection Ho as <-. destruct (Ht eq_refl) as [Hdb _].
  split.
  - unfold getCacheInfo. run_m. simpl. rewrite Hdb, map_to_list_empty. reflexivity.
  - intros sc' total asset r Hr Hl. apply process_asset_miss; [done|].
    by rewrite Hr, Hdb.
Qed.

(** X12, witness: the stores that hold [hall] are cleared; [hall] is then
    fetched again. *)
Lemma X12_clear_all_then_empty_witness :
  let w' := state_of (clearAllCaches worker_reports_failure hall_cached) in
  outcome_of (getCacheInfo None w') =
    inr (Some {| version := "xr-cache-v1"; files := 0; totalSize := 0;
                 latestUpdate := None; assets := [] |}) ∧
  fetches_of (trace_of (process_asset (answers response_1000) 1 hall
                          {| world := w'; completed := 0; results := [] |})) =
    ["/models/hall.glb"].
Proof.
  cbv zeta.
  destruct (X12_clear_all_then_empty worker_reports_failure hall_cached) as [H1 H2].
  - reflexivity.
  - split; [exact H1|]. apply H2; reflexivity.
Defined.

(** ** The key of a record *)

Lemma process_asset_keyed sc total asset r :
  keyed (db (world r)) →
  keyed (db (world (state_of (process_asset sc total asset r)))).
Proof.
  unfold keyed. intros Hk. iter_cases; try done.
  intros k rec. destruct (decide (a_url asset = k)) as [<-|Hne].
  - rewrite lookup_insert_eq. by intros [= <-].
  - rewrite lookup_insert_ne by done. apply Hk.
Qed.

Lemma for_each_asset_keyed assetList : ∀ env total i r,
  keyed (db (world r)) →
  keyed (db (world (state_of (for_each_asset env total i assetList r)))).
Proof.
  induction assetList as [|asset rest IH]; intros env total i r Hk; [done|].
  rewrite for_each_asset_cons. cbv zeta.
  destruct (process_asset_entry (env i) total asset r) as (? & ? & Ho & _).
  rewrite Ho. unfold state_of at 1. simpl. apply IH. by apply process_asset_keyed.
Qed.

(** X13.  A run keeps every record under its own URL: if each record of the
    metadata store has its key as [url] before the run, so it is after the
    run, and [getCacheInfo] then lists every record of the store once, no
    two of them with the same [url]. *)
Theorem X13_records_keyed_by_url env assetList w :
  keyed (db w) →
  let w' := state_of (prefetchAssets env assetList w) in
  keyed (db w') ∧
  ∃ info,
    outcome_of (getCacheInfo None w') = inr (Some info) ∧
    NoDup (map url (assets info)) ∧
    ∀ rec, rec ∈ assets info ↔ db w' !! url rec = Some rec.
Proof.
  intros Hk. cbv zeta.
  assert (Hk' : keyed (db (state_of (prefetchAssets env assetList w)))).
  { rewrite prefetchAssets_run. cbv zeta. unfold state_of at 1. simpl.
    by apply (for_each_asset_keyed assetList env _ 0%nat
                {| world := w; completed := 0; results := [] |}). }
  split; [done|].
  set (w' := state_of (prefetchAssets env assetList w)) in *.
  unfold getCacheInfo. run_m. simpl. eexists. split; [reflexivity|]. simpl.
  assert (Hurl : map url (map snd (map_to_list (db w'))) = map fst (map_to_list (db w'))).
  { rewrite map_map. apply map_ext_in. intros [k rec] Hin. simpl.
    apply list_elem_of_In, elem_of_map_to_list in Hin. by apply Hk'. }
  split.
  - rewrite Hurl. apply NoDup_fst_map_to_list.
  - intros rec. split.
    + intros Hin. apply list_elem_of_fmap in Hin as ([k rec'] & -> & Hin).
      apply elem_of_map_to_list in Hin. simpl. by rewrite (Hk' _ _ Hin).
    + intros Hin. apply list_elem_of_fmap. exists (url rec, rec). split; [done|].
      by apply elem_of_map_to_list.
Qed.

(** X13, witness: a run on empty stores. *)
Lemma X13_records_keyed_witness :
  let w' := state_of (prefetchAssets (λ _, answers response_1000) [hall; plan] empty_world) in
  keyed (db w') ∧
  ∃ info,
    outcome_of (getCacheInfo None w') = inr (Some info) ∧
    NoDup (map url (assets info)) ∧
    ∀ rec, rec ∈ assets info ↔ db w' !! url rec = Some rec.
Proof.
  apply (X13_records_keyed_by_url (λ _, answers response_1000) [hall; plan] empty_world).
  intros k rec H. simpl in H. by rewrite lookup_empty in H.
Defined.

(** ** [getCacheInfo] when the store cannot be read *)

(** X14.  [getCacheInfo] never throws and never changes the stores; its only
    platform call is [getAll] on the metadata store.  It returns [null]
    exactly when that call is rejected. *)
Theorem X14_cache_info_null_on_failure fails w :
  ∃ result,
    getCacheInfo fails w = (inr result, w, [DbGetAll]) ∧
    (result = None ↔ is_Some fails).
Proof.
  unfold getCacheInfo. run_m. destruct fails as [e|]; simpl.
  - eexists. split; [reflexivity|]. split; [by eexists|done].
  - eexists. split; [reflexivity|]. split; [done|]. by intros [? ?].
Qed.

(** ** [readAssetsJson] *)

(** X15.  [readAssetsJson] asks the network once and hands every failure to
    its caller: it resolves with a configuration exactly when the fetch
    resolved with an [ok] response whose JSON parsed to it.  A rejected
    fetch and a failed parse are thrown again as they are; a response that
    is not [ok] is thrown as an error that names the path and the status
    text. *)
Theorem X15_read_assets_json_propagates {S J : Type}
    (answer : JsError + Response) (json : JsError + J) (path : string) (s : S) :
  let x := readAssetsJson answer json path s in
  state_of x = s ∧ trace_of x = [NetFetch path] ∧
  (∀ config, outcome_of x = inr config ↔
             ∃ response, answer = inr response ∧ ok response = true ∧
                         json = inr config) ∧
  (∀ e, answer = inl e → outcome_of x = inl e) ∧
  (∀ response, answer = inr response → ok response = false →
     outcome_of x =
       inl {| message := "Failed to load " +:+ path +:+ ": " +:+ statusText response |}) ∧
  (∀ response e, answer = inr response → ok response = true → json = inl e →
     outcome_of x = inl e).
Proof.
  cbv zeta. unfold readAssetsJson. run_m. simpl.
  destruct answer as [e|response]; simpl;
    [|destruct (ok response) eqn:Hok; simpl; [destruct json as [e|config]; simpl|]].
  all: split_and!; try done.
  all: try (intros; split; [discriminate || (intros [= ->]; eauto)
                           | intros (? & ? & ? & ?); congruence]).
  all: intros; congruence.
Qed.

(** ** The download handler: the list it requests and what it shows *)

(** X16.  The asset list of the download handler names the environment
    first, then the light plan, then every additional asset in the order of
    the configuration, none dropped; an empty or missing environment or
    light plan URL is left out.  Every listed asset has a display name that
    is not empty.  The list is empty (and the handler stops with its alert)
    exactly when the configuration has neither of the two URLs and no
    additional asset. *)
Theorem X16_asset_list_of_config config :
  map a_url (build_asset_list config) =
    option_list (truthy (environmentUrl config)) ++
    option_list (truthy (lightplanUrl config)) ++
    map ad_url (default [] (additional config)) ∧
  Forall (λ a, a_name a ≠ "") (build_asset_list config) ∧
  (build_asset_list config = [] ↔
   truthy (environmentUrl config) = None ∧ truthy (lightplanUrl config) = None ∧
   default [] (additional config) = []).
Proof.
  unfold build_asset_list. split; [|split].
  - rewrite !map_app. f_equal; [|f_equal].
    + by destruct (truthy (environmentUrl config)).
    + by destruct (truthy (lightplanUrl config)).
    + destruct (additional config); [|done]. simpl. by rewrite map_map.
  - rewrite !Forall_app. split; [|split].
    + destruct (truthy (environmentUrl config)); by repeat constructor.
    + destruct (truthy (lightplanUrl config)); by repeat constructor.
    + destruct (additional config) as [extra|]; [|constructor].
      apply Forall_fmap, Forall_forall. intros asset _. simpl.
      by destruct (ad_name asset) as [[|c s]|].
  - destruct (truthy (environmentUrl config)); simpl;
      [split; [discriminate|by intros [? _]]|].
    destruct (truthy (lightplanUrl config)); simpl;
      [split; [discriminate|by intros (_ & ? & _)]|].
    destruct (additional config) as [[|asset extra]|]; simpl; split; try done.
    by intros (_ & _ & ?).
Qed.

Lemma view_within n c :
  0 < n → between 0 n c →
  (0 <= bar_percent (updateProgress c n))%Q ∧
  (bar_percent (updateProgress c n) <= 100)%Q ∧
  0 ≤ files_done (updateProgress c n) ≤ files_total (updateProgress c n) ∧
  files_total (updateProgress c n) = n.
Proof.
  intros Hn [Hlo Hhi]. unfold updateProgress. simpl.
  destruct (0 <? n) eqn:Hpos; [|lia].
  assert (Hnq : (0 < inject_Z n)%Q)
    by (change (inject_Z 0 < inject_Z n)%Q; rewrite <- Zlt_Qlt; lia).
  split; [|split; [|split; [|done]]].
  - apply Qmult_le_0_compat; [|done].
    apply Qle_shift_div_l; [done|]. by rewrite Qmult_0_l.
  - change 100%Q with (1 * 100)%Q at 2. apply Qmult_le_compat_r; [|done].
    apply Qle_shift_div_r; [done|]. by rewrite Qmult_1_l.
  - split.
    + change 0 with (Qfloor (inject_Z 0)). by apply Qfloor_resp_le.
    + rewrite <- (Qfloor_Z n). by apply Qfloor_resp_le.
Qed.

Lemma progress_views_within (assetList : list Asset) (t : list Event) :
  Forall (event_of_list assetList) t →
  Forall (between 0 (Z.of_nat (length assetList))) (progress_values t) →
  Forall (λ v, (0 <= bar_percent v)%Q ∧ (bar_percent v <= 100)%Q ∧
               0 ≤ files_done v ≤ files_total v ∧
               files_total v = Z.of_nat (length assetList))
         (progress_views t).
Proof.
  induction t as [|e t IH]; intros He Hv; [constructor|].
  apply Forall_cons in He as [He Ht].
  destruct e; simpl in *; try by apply IH.
  apply Forall_cons in Hv as [Hc Hv]. destruct He as [-> Hname].
  constructor; [|by apply IH].
  apply view_within; [|done].
  destruct assetList; [by apply elem_of_nil in Hname|simpl; lia].
Qed.

(** X17.  In a run in which no response delivers more bytes than it
    declares, every call of the handler's [onProgress] shows a bar between
    0% and 100% wide and a status line [Downloading k/n files...] in which
    [n] is the number of requests and [0 <= k <= n]. *)
Theorem X17_progress_bar_within_bounds env assetList w :
  (∀ i, (i < length assetList)%nat → within_declared (env i)) →
  Forall (λ v, (0 <= bar_percent v)%Q ∧ (bar_percent v <= 100)%Q ∧
               0 ≤ files_done v ≤ files_total v ∧
               files_total v = Z.of_nat (length assetList))
         (progress_views (trace_of (prefetchAssets env assetList w))).
Proof.
  intros Hdecl. apply progress_views_within.
  - rewrite prefetchAssets_run. cbv zeta. unfold trace_of at 1. simpl.
    by apply for_each_asset_events.
  - rewrite prefetchAssets_run. cbv zeta. unfold trace_of at 1. simpl.
    by destruct (for_each_asset_progress assetList env (Z.of_nat (length assetList))
                   0%nat {| world := w; completed := 0; results := [] |} Hdecl).
Qed.

(** X17, witness: the 1000 bytes declared arrive in four chunks. *)
Lemma X17_progress_bar_witness :
  Forall (λ v, (0 <= bar_percent v)%Q ∧ (bar_percent v <= 100)%Q ∧
               0 ≤ files_done v ≤ files_total v ∧
               files_total v = 1)
         (progress_views
            (trace_of (prefetchAssets (λ _, answers response_1000) [hall] empty_world))).
Proof.
  apply (X17_progress_bar_within_bounds (λ _, answers response_1000) [hall] empty_world).
  intros i _. vm_compute. discriminate.
Defined.

(** ** [cycleQuality] *)

(** X18.  A click on the quality button goes from [high] to [medium], from
    [medium] to [low] and from [low] back to [high]; from any other value of
    [qualityMode] it goes to [high].  So a click always leaves one of the
    three modes, it changes the mode when that was one of the three, and
    three clicks return to the mode they started from. *)
Theorem X18_cycle_quality mode :
  cycleQuality "high" = "medium" ∧
  cycleQuality "medium" = "low" ∧
  cycleQuality "low" = "high" ∧
  cycleQuality mode ∈ ["high"; "medium"; "low"] ∧
  (mode ∈ ["high"; "medium"; "low"] →
   cycleQuality mode ≠ mode ∧
   cycleQuality (cycleQuality (cycleQuality mode)) = mode) ∧
  (mode ∉ ["high"; "medium"; "low"] → cycleQuality mode = "high").
Proof.
  assert (H1 : cycleQuality "high" = "medium") by reflexivity.
  assert (H2 : cycleQuality "medium" = "low") by reflexivity.
  assert (H3 : cycleQuality "low" = "high") by reflexivity.
  split; [exact H1|]. split; [exact H2|]. split; [exact H3|].
  assert (Hcases : mode = "high" ∨ mode = "medium" ∨ mode = "low" ∨
                   mode ∉ ["high"; "medium"; "low"]).
  { destruct (decide (mode = "high")); [by left|].
    destruct (decide (mode = "medium")); [by right; left|].
    destruct (decide (mode = "low")); [by right; right; left|].
    right; right; right. rewrite !elem_of_cons, elem_of_nil. tauto. }
  assert (Hother : mode ∉ ["high"; "medium"; "low"] → cycleQuality mode = "high").
  { rewrite !elem_of_cons, elem_of_nil. intros Hn.
    unfold cycleQuality. simpl.
    destruct (String.eqb_spec mode "high"); [tauto|].
    destruct (String.eqb_spec mode "medium"); [tauto|].
    destruct (String.eqb_spec mode "low"); [tauto|]. reflexivity. }
  destruct Hcases as [->|[->|[->|Hn]]].
  4: { rewrite (Hother Hn). split; [apply elem_of_cons; by left|].
       split; [by intros ?|done]. }
  all: rewrite ?H1, ?H2, ?H3, ?H1, ?H2, ?H3.
  all: split; [rewrite !elem_of_cons; tauto|].
  all: split; [intros _; split; [discriminate|reflexivity]|done].
Qed.

(** ** Items that are not downloaded leave no mark *)

(** The entry of an iteration and the metadata store it leaves depend on the
    scenario, the item and the metadata store it finds, and on nothing else. *)
Lemma process_asset_determined sc total1 total2 asset r1 r2 :
  db (world r1) = db (world r2) →
  ∃ entry,
    results (state_of (process_asset sc total1 asset r1)) = results r1 ++ [entry] ∧
    results (state_of (process_asset sc total2 asset r2)) = results r2 ++ [entry] ∧
    db (world (state_of (process_asset sc total1 asset r1))) =
    db (world (state_of (process_asset sc total2 asset r2))) ∧
    (is_downloaded entry = false →
     db (world (state_of (process_asset sc total1 asset r1))) = db (world r1)).
Proof.
  intros Hdb. unfold process_asset. run_m. simpl.
  destruct (sc_lookup sc); simpl; [eauto|].
  rewrite <- Hdb. destruct (db (world r1) !! a_url asset); simpl; [eauto 6|].
  destruct (sc_fetch sc) as [e|resp]; simpl; [eauto|].
  destruct (ok resp); simpl; [|eauto].
  destruct (sc_cache_open sc); simpl; [eauto|].
  destruct (sc_cache_put sc); simpl; [eauto|].
  destruct (body resp) as [b|]; simpl; [|eauto].
  rewrite !read_body_run. simpl.
  destruct (read_error b); simpl; [eauto|].
  destruct (sc_save sc); simpl; [eauto|].
  eexists. split; [reflexivity|]. split; [reflexivity|]. split; [by rewrite Hdb|].
  discriminate.
Qed.

Lemma state_of_for_each_app env total i l1 l2 r :
  state_of (for_each_asset env total i (l1 ++ l2) r) =
  state_of (for_each_asset env total (i + length l1)%nat l2
              (state_of (for_each_asset env total i l1 r))).
Proof. by rewrite for_each_asset_app. Qed.

Lemma for_each_asset_determined l : ∀ env1 env2 total1 total2 i1 i2 r1 r2,
  (∀ j, (j < length l)%nat → env1 (i1 + j)%nat = env2 (i2 + j)%nat) →
  db (world r1) = db (world r2) →
  ∃ rs,
    length rs = length l ∧
    results (state_of (for_each_asset env1 total1 i1 l r1)) = results r1 ++ rs ∧
    results (state_of (for_each_asset env2 total2 i2 l r2)) = results r2 ++ rs ∧
    db (world (state_of (for_each_asset env1 total1 i1 l r1))) =
    db (world (state_of (for_each_asset env2 total2 i2 l r2))).
Proof.
  induction l as [|a l IH]; intros env1 env2 total1 total2 i1 i2 r1 r2 Henv Hdb.
  - exists []. simpl. by rewrite !app_nil_r.
  - rewrite !state_of_for_each_cons.
    assert (He : env1 i1 = env2 i2).
    { specialize (Henv 0%nat). rewrite !Nat.add_0_r in Henv. apply Henv. simpl. lia. }
    rewrite <- He.
    destruct (process_asset_determined (env1 i1) total1 total2 a r1 r2 Hdb)
      as (entry & Hr1 & Hr2 & Hdb' & _).
    destruct (IH env1 env2 total1 total2 (S i1) (S i2)
                (state_of (process_asset (env1 i1) total1 a r1))
                (state_of (process_asset (env1 i1) total2 a r2)))
      as (rs & Hlen & Hrs1 & Hrs2 & Hdbs); [|done|].
    { intros j Hj. specialize (Henv (S j)). rewrite !Nat.add_succ_r in Henv.
      apply Henv. simpl. lia. }
    exists (entry :: rs). split; [simpl; lia|].
    rewrite Hrs1, Hrs2, Hr1, Hr2, <- !app_assoc. by repeat split.
Qed.

Lemma for_each_asset_skip env env' total total' l1 a l2 r :
  (∀ i, env' i = if (i <? length l1)%nat then env i else env (S i)) →
  ∃ rs1 ea rs2,
    length rs1 = length l1 ∧
    results (state_of (for_each_asset env total 0 (l1 ++ a :: l2) r)) =
      results r ++ rs1 ++ ea :: rs2 ∧
    (is_downloaded ea = false →
     results (state_of (for_each_asset env' total' 0 (l1 ++ l2) r)) =
       results r ++ rs1 ++ rs2 ∧
     db (world (state_of (for_each_asset env total 0 (l1 ++ a :: l2) r))) =
     db (world (state_of (for_each_asset env' total' 0 (l1 ++ l2) r)))).
Proof.
  intros Henv. rewrite !state_of_for_each_app, state_of_for_each_cons.
  rewrite Nat.add_0_l.
  destruct (for_each_asset_determined l1 env env' total total' 0%nat 0%nat r r)
    as (rs1 & Hlen1 & Hr1 & Hr1' & Hdb1); [|done|].
  { intros j Hj. simpl. rewrite Henv.
    destruct (Nat.ltb_spec j (length l1)); [done|lia]. }
  set (sA := state_of (for_each_asset env total 0 l1 r)) in *.
  set (sB := state_of (for_each_asset env' total' 0 l1 r)) in *.
  destruct (process_asset_determined (env (length l1)) total total a sA sA eq_refl)
    as (ea & Hea & _ & _ & Hsame).
  set (sA' := state_of (process_asset (env (length l1)) total a sA)) in *.
  destruct (for_each_asset_determined l2 env env total total
              (S (length l1)) (S (length l1)) sA' sA')
    as (rs2 & Hlen2 & Hr2 & _ & _); [done..|].
  exists rs1, ea, rs2. split; [done|]. split.
  { by rewrite Hr2, Hea, Hr1, <- !app_assoc. }
  intros Hnd. specialize (Hsame Hnd).
  destruct (for_each_asset_determined l2 env env' total total'
              (S (length l1)) (length l1) sA' sB)
    as (rs2' & _ & Hr2a & Hr2' & Hdb2).
  { intros j Hj. rewrite Henv.
    destruct (Nat.ltb_spec (length l1 + j) (length l1)); [lia|].
    reflexivity. }
  { by rewrite Hsame. }
  rewrite Hr2 in Hr2a. apply app_inv_head in Hr2a. subst rs2'.
  split; [|done]. by rewrite Hr2', Hr1', <- app_assoc.
Qed.

Lemma prefetchAssets_outcome env assetList w :
  outcome_of (prefetchAssets env assetList w) =
  inr (results (state_of (for_each_asset env (Z.of_nat (length assetList)) 0 assetList
                            {| world := w; completed := 0; results := [] |}))).
Proof.
  rewrite prefetchAssets_run. cbv zeta.
  destruct (for_each_asset_entries assetList env (Z.of_nat (length assetList)) 0%nat
              {| world := w; completed := 0; results := [] |}) as (? & ? & Ho & _).
  by rewrite Ho.
Qed.

Lemma prefetchAssets_state env assetList w :
  state_of (prefetchAssets env assetList w) =
  world (state_of (for_each_asset env (Z.of_nat (length assetList)) 0 assetList
                     {| world := w; completed := 0; results := [] |})).
Proof. by rewrite prefetchAssets_run. Qed.

(** X19.  An item that is not downloaded in a run (it fails, or it is a
    cache hit) leaves no mark on the rest of the run: the run over the same
    list without that item, with the platform answering the remaining items
    as before, returns the same entries for them and leaves the same
    metadata store. *)
Theorem X19_undownloaded_item_leaves_no_mark env l1 a l2 w rs e :
  outcome_of (prefetchAssets env (l1 ++ a :: l2) w) = inr rs →
  rs !! length l1 = Some e →
  is_downloaded e = false →
  let env' := λ i, if (i <? length l1)%nat then env i else env (S i) in
  outcome_of (prefetchAssets env' (l1 ++ l2) w) = inr (delete (length l1) rs) ∧
  db (state_of (prefetchAssets env' (l1 ++ l2) w)) =
  db (state_of (prefetchAssets env (l1 ++ a :: l2) w)).
Proof.
  intros Hrun He Hnd. cbv zeta.
  rewrite prefetchAssets_outcome in Hrun. injection Hrun as <-.
  rewrite prefetchAssets_outcome, !prefetchAssets_state.
  set (r0 := {| world := w; completed := 0; results := [] |}) in *.
  set (env' := λ i, if (i <? length l1)%nat then env i else env (S i)).
  destruct (for_each_asset_skip env env' (Z.of_nat (length (l1 ++ a :: l2)))
              (Z.of_nat (length (l1 ++ l2))) l1 a l2 r0)
    as (rs1 & ea & rs2 & Hlen & Hres & Hskip); [done|].
  rewrite Hres in He |- *. simpl in He |- *.
  rewrite lookup_app_r in He by lia. rewrite Hlen, Nat.sub_diag in He.
  injection He as ->. destruct (Hskip Hnd) as [Hres' Hdb].
  rewrite Hres'. simpl. split; [|done]. f_equal.
  rewrite <- Hlen. by rewrite delete_middle.
Qed.

(** X19, witness: the second of three items is answered 404. *)
Lemma X19_undownloaded_item_witness :
  let env' := λ i, if (i <? length [hall])%nat then second_fails i else second_fails (S i) in
  outcome_of (prefetchAssets env' ([hall] ++ [floor_texture]) empty_world) =
    inr (delete (length [hall])
           [ResSize "/models/hall.glb" "Hall" false 1000;
            ResError "/models/plan.json" "Light plan" "HTTP 404: Not Found";
            ResSize "/textures/floor.ktx2" "Floor" false 1000]) ∧
  db (state_of (prefetchAssets env' ([hall] ++ [floor_texture]) empty_world)) =
  db (state_of (prefetchAssets second_fails ([hall] ++ plan :: [floor_texture]) empty_world)).
Proof.
  apply (X19_undownloaded_item_leaves_no_mark second_fails [hall] plan [floor_texture]
           empty_world _ (ResError "/models/plan.json" "Light plan" "HTTP 404: Not Found")).
  - by vm_compute.
  - reflexivity.
  - reflexivity.
Defined.

(** ** Downloads and the two stores *)

Lemma cached_after_put (cs : gmap string (gmap string Response)) u resp k :
  is_Some (cs !! "xr-cache-v1" ≫= (λ c : gmap string Response, c !! k)) ∨ k = u →
  is_Some (<["xr-cache-v1" := <[u := resp]> (default ∅ (cs !! "xr-cache-v1"))]> cs
             !! "xr-cache-v1" ≫= (λ c : gmap string Response, c !! k)).
Proof.
  intros Hk. rewrite lookup_insert_eq. simpl.
  destruct (decide (k = u)) as [->|Hne]; [rewrite lookup_insert_eq; by eexists|].
  rewrite lookup_insert_ne by done. destruct Hk as [Hk|Hk]; [|done].
  by destruct (cs !! "xr-cache-v1").
Qed.

Lemma cached_after_open (cs : gmap string (gmap string Response)) (k : string) :
  is_Some (cs !! "xr-cache-v1" ≫= (λ c : gmap string Response, c !! k)) →
  is_Some (opened cs !! "xr-cache-v1" ≫= (λ c : gmap string Response, c !! k)).
Proof.
  unfold opened. intros Hk. destruct (cs !! "xr-cache-v1") eqn:Hc; [by rewrite Hc|].
  by destruct Hk.
Qed.

(** An iteration never removes a cached response, and a download leaves the
    response of its item in the cache. *)
Lemma process_asset_cached sc total asset r :
  (∀ k, is_Some (cached_response (world r) k) →
        is_Some (cached_response (world (state_of (process_asset sc total asset r))) k)) ∧
  ∃ entry,
    results (state_of (process_asset sc total asset r)) = results r ++ [entry] ∧
    (is_downloaded entry = true →
     is_Some (cached_response (world (state_of (process_asset sc total asset r)))
                (a_url asset))).
Proof.
  unfold cached_response.
  iter_cases; (split; [intros k Hk; simpl|]);
    try (eexists; (split; [reflexivity|]); simpl; try discriminate).
  all: try done.
  all: try (apply cached_after_put; by right).
  all: try (apply cached_after_put; left; by apply (cached_after_open _ k)).
  all: try by apply (cached_after_open _ k).
  intros _. apply cached_after_put. by right.
Qed.

Lemma for_each_asset_cached assetList : ∀ env total i r,
  (∀ k, is_Some (cached_response (world r) k) →
        is_Some (cached_response
                   (world (state_of (for_each_asset env total i assetList r))) k)) ∧
  ∃ rs,
    results (state_of (for_each_asset env total i assetList r)) = results r ++ rs ∧
    Forall2 (λ a e, is_downloaded e = true →
                    is_Some (cached_response
                               (world (state_of (for_each_asset env total i assetList r)))
                               (a_url a)))
            assetList rs.
Proof.
  induction assetList as [|asset rest IH]; intros env total i r.
  - split; [done|]. exists []. simpl. by rewrite app_nil_r.
  - rewrite state_of_for_each_cons.
    destruct (process_asset_cached (env i) total asset r) as (Hkeep1 & entry & He & Hdl).
    destruct (IH env total (S i) (state_of (process_asset (env i) total asset r)))
      as (Hkeep2 & rs & Hrs & Hall).
    split; [by eauto|].
    exists (entry :: rs). rewrite Hrs, He, <- app_assoc. split; [done|].
    constructor; [|done]. intros Hd. by apply Hkeep2, Hdl.
Qed.

(** X20.  The two stores agree on what a run downloaded: for every entry the
    run reports as downloaded, at the end of the run the content cache holds
    a response under the item's URL and the metadata store holds a record
    for it with the size of the entry. *)
Theorem X20_downloads_in_both_stores env assetList w rs :
  outcome_of (prefetchAssets env assetList w) = inr rs →
  Forall2 (in_both_stores (state_of (prefetchAssets env assetList w))) assetList rs.
Proof.
  intros Hrun. rewrite prefetchAssets_outcome in Hrun. injection Hrun as <-.
  rewrite prefetchAssets_state.
  set (r0 := {| world := w; completed := 0; results := [] |}).
  destruct (for_each_asset_cached assetList env (Z.of_nat (length assetList)) 0%nat r0)
    as (_ & rs & Hrs & Hcached).
  destruct (for_each_asset_store assetList env (Z.of_nat (length assetList)) 0%nat r0)
    as (w' & rs' & Hs & _ & Hrec).
  rewrite Hrs. rewrite Hs in Hrs, Hcached |- *. simpl in *. subst rs'.
  clear -Hcached Hrec. revert Hcached.
  induction Hrec as [|a e l1 l2 (_ & _ & Hsz) ? IH]; intros Hc; [constructor|].
  apply Forall2_cons_1 in Hc as [Hc Hcs].
  constructor; [|by apply IH].
  unfold in_both_stores. destruct e as [u n [] s|]; try done.
  split; [by apply Hc|]. exact Hsz.
Qed.

(** X20, witness: two items downloaded into empty stores. *)
Lemma X20_downloads_in_both_stores_witness :
  Forall2 (in_both_stores
             (state_of (prefetchAssets (λ _, answers response_1000) [hall; plan] empty_world)))
          [hall; plan]
          [ResSize "/models/hall.glb" "Hall" false 1000;
           ResSize "/models/plan.json" "Light plan" false 1000].
Proof.
  apply (X20_downloads_in_both_stores (λ _, answers response_1000) [hall; plan] empty_world).
  by vm_compute.
Defined.

Lemma for_each_asset_no_download assetList : ∀ env total i r,
  ∃ rs,
    results (state_of (for_each_asset env total i assetList r)) = results r ++ rs ∧
    (downloaded_sizes rs = [] →
     db (world (state_of (for_each_asset env total i assetList r))) = db (world r)).
Proof.
  induction assetList as [|asset rest IH]; intros env total i r.
  - exists []. simpl. by rewrite app_nil_r.
  - rewrite state_of_for_each_cons.
    destruct (process_asset_determined (env i) total total asset r r eq_refl)
      as (entry & He & _ & _ & Hsame).
    destruct (IH env total (S i) (state_of (process_asset (env i) total asset r)))
      as (rs & Hrs & Hnone).
    exists (entry :: rs). rewrite Hrs, He, <- app_assoc. split; [done|].
    intros Hd. destruct entry as [u n [] s|u n m]; simpl in Hd; try discriminate.
    + rewrite Hnone by done. by apply Hsame.
    + rewrite Hnone by done. by apply Hsame.
Qed.

(** X21.  Only downloads write metadata: a run in which no entry is a
    download (every item is a cache hit or fails) leaves the metadata store
    exactly as it was. *)
Theorem X21_no_download_no_metadata_change env assetList w rs :
  outcome_of (prefetchAssets env assetList w) = inr rs →
  downloaded_sizes rs = [] →
  db (state_of (prefetchAssets env assetList w)) = db w.
Proof.
  intros Hrun Hnone. rewrite prefetchAssets_outcome in Hrun. injection Hrun as <-.
  rewrite prefetchAssets_state.
  destruct (for_each_asset_no_download assetList env (Z.of_nat (length assetList)) 0%nat
              {| world := w; completed := 0; results := [] |}) as (rs & Hrs & Hsame).
  rewrite Hrs in Hnone. by apply Hsame.
Qed.

(** X21, witness: both items are answered 404. *)
Lemma X21_no_download_witness :
  db (state_of (prefetchAssets (λ _, answers response_404) [hall; plan] hall_cached)) =
  db hall_cached.
Proof.
  apply (X21_no_download_no_metadata_change (λ _, answers response_404) [hall; plan]
           hall_cached
           [ResSize "/models/hall.glb" "Hall" true 1000;
            ResError "/models/plan.json" "Light plan" "HTTP 404: Not Found"]).
  - by vm_compute.
  - reflexivity.
Defined.
